(** * winrpmdepscalc: the two browser scripts, embedded and verified

    The repository holds two scripts that run inside a web page:

    - the EPEL 9 RPM auto downloader (a userscript whose [main] walks a
      list of package names across page reloads, keeping the list and a
      cursor in [sessionStorage]);
    - [get-epo-packages-list.js], which turns an HTML table into a CSV
      download.

    Both are embedded shallowly.  A JavaScript string is a [string]: a
    sequence of code units, restricted to the range 0..255 (code units
    above 255 are outside the model).  Numbers that the scripts handle are
    integers or NaN.  Browser effects are recorded, in program order, in a
    trace of events; [sessionStorage] is a finite map from keys to
    strings; a script reads the page through a record of what the DOM
    calls return.

    The file has two parts.  The first holds the definitions: the runtime
    ([JS], [RegExp]), the two scripts ([Downloader], [EpoList]), the target
    predicate in the words of the specification ([Spec]) and example pages.
    The second holds the facts, the numbered ones (C1 to C10, X1 to X19)
    each stated in its comment. *)

From Stdlib Require Import Ascii String List ZArith Lia Bool.
From Stdlib Require Import DecimalString DecimalPos DecimalZ.
From stdpp Require Import base gmap strings list.

Open Scope string_scope.

(** ** The parts of the JavaScript runtime the scripts call *)

Module JS.

(** The code unit of a character. *)
Definition code (c : ascii) : N := N_of_ascii c.

Definition between (lo hi : N) (n : N) : bool := ((lo <=? n) && (n <=? hi))%N.

(** [WhiteSpace] and [LineTerminator] of ECMAScript, within 0..255: TAB,
    LF, VT, FF, CR, SP and NBSP.  [String.prototype.trim] strips both. *)
Definition isLineTerminator (c : ascii) : bool :=
  ((code c =? 10) || (code c =? 13))%N.

Definition isWhiteSpace (c : ascii) : bool :=
  (between 9 13 (code c) || (code c =? 32) || (code c =? 160))%N.

(** A string is truthy unless it is empty. *)
Definition truthy (s : string) : bool :=
  match s with EmptyString => false | String _ _ => true end.

(** [s.trim()] *)
Fixpoint trimStart (s : string) : string :=
  match s with
  | String c s' => if isWhiteSpace c then trimStart s' else s
  | EmptyString => EmptyString
  end.

Fixpoint trimEnd (s : string) : string :=
  match s with
  | EmptyString => EmptyString
  | String c s' =>
      let t := trimEnd s' in
      if isWhiteSpace c && negb (truthy t) then EmptyString else String c t
  end.

Definition trim (s : string) : string := trimEnd (trimStart s).

Fixpoint allWhiteSpace (s : string) : bool :=
  match s with
  | EmptyString => true
  | String c s' => isWhiteSpace c && allWhiteSpace s'
  end.

Definition startsWithWhiteSpace (s : string) : bool :=
  match s with
  | String c _ => isWhiteSpace c
  | EmptyString => false
  end.

Fixpoint endsWithWhiteSpace (s : string) : bool :=
  match s with
  | EmptyString => false
  | String c EmptyString => isWhiteSpace c
  | String _ s' => endsWithWhiteSpace s'
  end.

(** [s.split(sep)] for a separator of one code unit: the pieces between
    the separators, in order; always at least one piece. *)
Fixpoint split (sep : ascii) (s : string) : list string :=
  match s with
  | EmptyString => [EmptyString]
  | String c s' =>
      if Ascii.eqb c sep then EmptyString :: split sep s'
      else match split sep s' with
           | t :: ts => String c t :: ts
           | [] => [String c EmptyString]
           end
  end.

(** Does the code unit [c] occur in [s]? *)
Fixpoint occursIn (c : ascii) (s : string) : bool :=
  match s with
  | EmptyString => false
  | String a s' => Ascii.eqb a c || occursIn c s'
  end.

(** [parts.join(sep)] *)
Fixpoint join (sep : string) (parts : list string) : string :=
  match parts with
  | [] => EmptyString
  | [p] => p
  | p :: ps => p +:+ sep +:+ join sep ps
  end.

(** [s.startsWith(p)] *)
Fixpoint startsWith (s p : string) {struct p} : bool :=
  match p, s with
  | EmptyString, _ => true
  | String a p', String b s' => Ascii.eqb a b && startsWith s' p'
  | String _ _, EmptyString => false
  end.

(** [s.endsWith(p)]: some suffix of [s] is [p]. *)
Fixpoint endsWith (s p : string) : bool :=
  String.eqb s p
  || match s with
     | String _ s' => endsWith s' p
     | EmptyString => false
     end.

(** [String.prototype.toLowerCase] on one code unit of 0..255: A-Z and
    the Latin-1 capitals (192..222 but the multiplication sign 215). *)
Definition lowerChar (c : ascii) : ascii :=
  let n := code c in
  if between 65 90 n || (between 192 222 n && negb (n =? 215)%N)
  then ascii_of_N (n + 32) else c.

Fixpoint toLowerCase (s : string) : string :=
  match s with
  | EmptyString => EmptyString
  | String c s' => String (lowerChar c) (toLowerCase s')
  end.

(** [s[0]]: the string of the first code unit, [None] for [undefined]. *)
Definition charAt0 (s : string) : option string :=
  match s with
  | EmptyString => None
  | String c _ => Some (String c EmptyString)
  end.

(** Numbers: the scripts only meet integers and NaN. *)
Inductive number : Type :=
| NaN
| Int (z : Z).

(** [n.toString()] of an integer: its decimal digits, with a minus sign
    when negative.  This is what JavaScript prints for the integers it
    holds exactly and prints in full, those between [-2^53] and [2^53];
    from [10^21] on it prints an exponent form, which is outside the
    model.  The cursors [main] writes are [0] and an index of the list
    plus one. *)
Definition toString (z : Z) : string := NilZero.string_of_int (Z.to_int z).

Definition isDigit (c : ascii) : bool := between 48 57 (code c).

(** The value of the longest prefix of decimal digits, read after the
    digits [acc] already seen; [None] when there is no digit at all. *)
Fixpoint digitsPrefix (s : string) (acc : option Z) : option Z :=
  match s with
  | String c s' =>
      if isDigit c
      then digitsPrefix s' (Some (10 * default 0%Z acc + (Z.of_N (code c) - 48))%Z)
      else acc
  | EmptyString => acc
  end.

(** [parseInt(s, 10)]: leading white space is skipped, one sign is read,
    then the longest run of digits; NaN when there is none.  With the
    radix given as 10 no [0x] prefix is recognised. *)
Definition parseInt10 (s : string) : number :=
  let body sign rest :=
    match digitsPrefix rest None with
    | Some v => Int (sign * v)
    | None => NaN
    end in
  match trimStart s with
  | String "-" rest => body (-1)%Z rest
  | String "+" rest => body 1%Z rest
  | rest => body 1%Z rest
  end.

(** [parseInt(v, 10)] of what [getItem] returned: [null] is first
    converted to the string [null], which has no digits. *)
Definition parseInt10_item (v : option string) : number :=
  match v with
  | Some s => parseInt10 s
  | None => NaN
  end.

(** [n >= len] for a number and an array length; every comparison with
    NaN is false. *)
Definition geLength (n : number) (len : nat) : bool :=
  match n with
  | NaN => false
  | Int z => (Z.of_nat len <=? z)%Z
  end.

(** [arr[n]]: [undefined] ([None]) outside the array and for NaN. *)
Definition index {A} (arr : list A) (n : number) : option A :=
  match n with
  | NaN => None
  | Int z => if (z <? 0)%Z then None else arr !! Z.to_nat z
  end.

(** *** JSON, for arrays of strings

    [sessionStorage] holds strings, so the worklist crosses a reload as
    [JSON.stringify(pkgs)] and comes back through [JSON.parse]. *)

Definition dquote : ascii := "034"%char.
Definition backslash : ascii := "092"%char.

Definition hexDigit (n : N) : ascii :=
  if (n <? 10)%N then ascii_of_N (48 + n) else ascii_of_N (87 + n).

(** [QuoteJSONString] on one code unit: the two-character escapes, a
    [\u00xx] escape for the other control characters, the unit itself
    otherwise. *)
Definition quoteChar (c : ascii) (k : string) : string :=
  let n := code c in
  let esc e := String backslash (String e k) in
  if (n =? 8)%N then esc "b"%char
  else if (n =? 9)%N then esc "t"%char
  else if (n =? 10)%N then esc "n"%char
  else if (n =? 12)%N then esc "f"%char
  else if (n =? 13)%N then esc "r"%char
  else if (n =? 34)%N then esc dquote
  else if (n =? 92)%N then esc backslash
  else if (n <? 32)%N
  then String backslash (String "u" (String "0" (String "0"
         (String (hexDigit (n / 16)) (String (hexDigit (n mod 16)) k)))))
  else String c k.

Fixpoint quoteBody (s : string) (k : string) : string :=
  match s with
  | EmptyString => k
  | String c s' => quoteChar c (quoteBody s' k)
  end.

Definition quote (s : string) (k : string) : string :=
  String dquote (quoteBody s (String dquote k)).

Fixpoint stringifyItems (l : list string) (k : string) : string :=
  match l with
  | [] => k
  | [s] => quote s k
  | s :: l' => quote s (String "," (stringifyItems l' k))
  end.

(** [JSON.stringify(l)] for an array of strings (no indentation). *)
Definition JSON_stringify (l : list string) : string :=
  String "[" (stringifyItems l "]").

Definition isJSONSpace (c : ascii) : bool :=
  let n := code c in ((n =? 32) || (n =? 9) || (n =? 10) || (n =? 13))%N.

Definition hexValue (c : ascii) : option N :=
  let n := code c in
  if between 48 57 n then Some (n - 48)%N
  else if between 97 102 n then Some (n - 87)%N
  else if between 65 70 n then Some (n - 55)%N
  else None.

(** The code unit of [\uXXXX], when it lies in 0..255. *)
Definition hex4 (a b c d : ascii) : option ascii :=
  match hexValue a, hexValue b, hexValue c, hexValue d with
  | Some x, Some y, Some z, Some w =>
      let n := (((x * 16 + y) * 16 + z) * 16 + w)%N in
      if (n <? 256)%N then Some (ascii_of_N n) else None
  | _, _, _, _ => None
  end.

(** The character a two-character escape stands for. *)
Definition unescape (e : ascii) : option ascii :=
  let n := code e in
  if (n =? 34)%N then Some dquote
  else if (n =? 92)%N then Some backslash
  else if (n =? 47)%N then Some "/"%char
  else if (n =? 98)%N then Some (ascii_of_N 8)
  else if (n =? 102)%N then Some (ascii_of_N 12)
  else if (n =? 110)%N then Some (ascii_of_N 10)
  else if (n =? 114)%N then Some (ascii_of_N 13)
  else if (n =? 116)%N then Some (ascii_of_N 9)
  else None.

(** Where the reader of a JSON array of strings stands; [items] and
    [acc] are kept in reverse. *)
Inductive mode : Type :=
| BeforeArray
| AfterOpen
| InString (items : list string) (acc : list ascii)
| AfterString (items : list string)
| AfterComma (items : list string)
| AfterClose (items : list string).

Definition finishString (items : list string) (acc : list ascii) : list string :=
  string_of_list_ascii (rev acc) :: items.

Fixpoint parseArray (m : mode) (s : string) : option (list string) :=
  match s with
  | EmptyString =>
      match m with
      | AfterClose items => Some (rev items)
      | _ => None
      end
  | String c r =>
      match m with
      | BeforeArray =>
          if isJSONSpace c then parseArray BeforeArray r
          else if Ascii.eqb c "[" then parseArray AfterOpen r
          else None
      | AfterOpen =>
          if isJSONSpace c then parseArray AfterOpen r
          else if Ascii.eqb c "]" then parseArray (AfterClose []) r
          else if Ascii.eqb c dquote then parseArray (InString [] []) r
          else None
      | InString items acc =>
          if Ascii.eqb c dquote then parseArray (AfterString (finishString items acc)) r
          else if Ascii.eqb c backslash then
            match r with
            | String e r1 =>
                if Ascii.eqb e "u" then
                  match r1 with
                  | String h1 (String h2 (String h3 (String h4 r2))) =>
                      match hex4 h1 h2 h3 h4 with
                      | Some u => parseArray (InString items (u :: acc)) r2
                      | None => None
                      end
                  | _ => None
                  end
                else
                  match unescape e with
                  | Some u => parseArray (InString items (u :: acc)) r1
                  | None => None
                  end
            | EmptyString => None
            end
          else if (code c <? 32)%N then None
          else parseArray (InString items (c :: acc)) r
      | AfterString items =>
          if isJSONSpace c then parseArray (AfterString items) r
          else if Ascii.eqb c "," then parseArray (AfterComma items) r
          else if Ascii.eqb c "]" then parseArray (AfterClose items) r
          else None
      | AfterComma items =>
          if isJSONSpace c then parseArray (AfterComma items) r
          else if Ascii.eqb c dquote then parseArray (InString items []) r
          else None
      | AfterClose items =>
          if isJSONSpace c then parseArray (AfterClose items) r else None
      end
  end.

(** [JSON.parse(s)], as far as the downloader needs it: [Some l] when [s]
    is the JSON text of an array [l] of strings (of code units 0..255),
    [None] otherwise: either [JSON.parse] throws a [SyntaxError] or it
    yields a value of another shape, which this model does not follow. *)
Definition JSON_parse (s : string) : option (list string) :=
  parseArray BeforeArray s.

End JS.

(** ** Regular expressions, as far as the downloader's pattern needs them

    [main] builds its pattern from the package name with no escaping, so
    the name is read as pattern source.  The model covers the patterns made
    of literal characters, [.], bracket classes without ranges, identity
    escapes of punctuation, [^], [$] and the quantifiers [*], [+], [?]
    (greedy or lazy); this holds every name over letters, digits and
    [. _ + -].  Other constructs (groups, alternation, braces, ranges,
    escapes of letters or digits) are reported as [Unsupported] and are not
    followed further. *)

Module RegExp.
Import JS.

Inductive atom : Type :=
| Char (c : ascii)
| Dot
| Class (negated : bool) (members : list ascii).

Inductive quantifier : Type := Once | Star | Plus | Optional.

Inductive term : Type :=
| AssertStart
| AssertEnd
| Atom (a : atom) (q : quantifier).

Inductive token : Type :=
| TAtom (a : atom)
| TCaret
| TDollar
| TStar
| TPlus
| TQuestion.

(** What [new RegExp(source, 'i')] comes to. *)
Inductive compiled (A : Type) : Type :=
| Pattern (p : A)
| SyntaxError
| Unsupported.
Arguments Pattern {A} p.
Arguments SyntaxError {A}.
Arguments Unsupported {A}.

Definition consOn {A} (x : A) (r : compiled (list A)) : compiled (list A) :=
  match r with
  | Pattern l => Pattern (x :: l)
  | SyntaxError => SyntaxError
  | Unsupported => Unsupported
  end.

(** Punctuation of ASCII: what a backslash may stand before to give the
    character itself. *)
Definition isPunct (c : ascii) : bool :=
  let n := code c in
  between 33 47 n || between 58 64 n || between 91 96 n || between 123 126 n.

Inductive lexmode : Type :=
| Outside
| InClass (negated : bool) (members : list ascii).

Definition oneOf (c : ascii) (set : string) : bool :=
  existsb (Ascii.eqb c) (list_ascii_of_string set).

(** The pattern source cut into atoms, assertions and quantifier signs. *)
Fixpoint lex (m : lexmode) (s : string) : compiled (list token) :=
  match m, s with
  | Outside, EmptyString => Pattern []
  | InClass _ _, EmptyString => SyntaxError
  | Outside, String c r =>
      if Ascii.eqb c backslash then
        match r with
        | EmptyString => SyntaxError
        | String e r' =>
            if isPunct e then consOn (TAtom (Char e)) (lex Outside r')
            else Unsupported
        end
      else if Ascii.eqb c "[" then
        match r with
        | String "^" r' => lex (InClass true []) r'
        | _ => lex (InClass false []) r
        end
      else if Ascii.eqb c "^" then consOn TCaret (lex Outside r)
      else if Ascii.eqb c "$" then consOn TDollar (lex Outside r)
      else if Ascii.eqb c "*" then consOn TStar (lex Outside r)
      else if Ascii.eqb c "+" then consOn TPlus (lex Outside r)
      else if Ascii.eqb c "?" then consOn TQuestion (lex Outside r)
      else if Ascii.eqb c "." then consOn (TAtom Dot) (lex Outside r)
      else if oneOf c "(){}|" then Unsupported
      else consOn (TAtom (Char c)) (lex Outside r)
  | InClass neg ms, String c r =>
      if Ascii.eqb c "]" then consOn (TAtom (Class neg (rev ms))) (lex Outside r)
      else if Ascii.eqb c backslash then
        match r with
        | EmptyString => SyntaxError
        | String e r' =>
            if isPunct e then lex (InClass neg (e :: ms)) r' else Unsupported
        end
      else if Ascii.eqb c "-" then
        match ms, r with
        | [], _ => lex (InClass neg (c :: ms)) r
        | _, String "]" _ => lex (InClass neg (c :: ms)) r
        | _, _ => Unsupported
        end
      else lex (InClass neg (c :: ms)) r
  end.

(** Quantifiers joined to the atom before them.  A quantifier with no
    atom before it (at the start, after an assertion, after another
    quantifier) is the [SyntaxError] "nothing to repeat"; a [?] right
    after a quantifier makes it lazy, which changes which match is found
    but not whether there is one. *)
Fixpoint assemble (ts : list token) : compiled (list term) :=
  match ts with
  | [] => Pattern []
  | TCaret :: r => consOn AssertStart (assemble r)
  | TDollar :: r => consOn AssertEnd (assemble r)
  | TStar :: _ | TPlus :: _ | TQuestion :: _ => SyntaxError
  | TAtom a :: r =>
      match r with
      | TStar :: TQuestion :: r2 => consOn (Atom a Star) (assemble r2)
      | TStar :: r1 => consOn (Atom a Star) (assemble r1)
      | TPlus :: TQuestion :: r2 => consOn (Atom a Plus) (assemble r2)
      | TPlus :: r1 => consOn (Atom a Plus) (assemble r1)
      | TQuestion :: TQuestion :: r2 => consOn (Atom a Optional) (assemble r2)
      | TQuestion :: r1 => consOn (Atom a Optional) (assemble r1)
      | _ => consOn (Atom a Once) (assemble r)
      end
  end.

(** [new RegExp(source, 'i')] *)
Definition compile (source : string) : compiled (list term) :=
  match lex Outside source with
  | Pattern ts => assemble ts
  | SyntaxError => SyntaxError
  | Unsupported => Unsupported
  end.

(** [Canonicalize] under the [i] flag (no [u] flag): the upper-case
    code unit.  The sharp s (223) has no one-unit upper case and stays;
    the upper cases of 255 and 181 lie above 255. *)
Definition canonicalize (c : ascii) : N :=
  let n := code c in
  if between 97 122 n || (between 224 254 n && negb (n =? 247)%N) then (n - 32)%N
  else if (n =? 255)%N then 376%N
  else if (n =? 181)%N then 924%N
  else n.

Definition atomMatches (a : atom) (ch : ascii) : bool :=
  match a with
  | Char c => (canonicalize c =? canonicalize ch)%N
  | Dot => negb (isLineTerminator ch)
  | Class neg ms =>
      xorb neg (existsb (fun m => (canonicalize m =? canonicalize ch)%N) ms)
  end.

(** Does the term list match at the head of [s]?  [atStart] tells
    whether [s] is the whole input (position 0), which is what [^] asks
    with no [m] flag; [$] asks for the end of the input. *)
Fixpoint matchHere (ts : list term) (atStart : bool) (s : string) {struct ts} : bool :=
  match ts with
  | [] => true
  | AssertStart :: ts' => atStart && matchHere ts' atStart s
  | AssertEnd :: ts' => negb (truthy s) && matchHere ts' atStart s
  | Atom a q :: ts' =>
      let many :=
        fix many (atStart : bool) (s : string) {struct s} : bool :=
          match s with
          | String c s' => atomMatches a c && many false s'
          | EmptyString => false
          end || matchHere ts' atStart s in
      let one (k : string -> bool) :=
        match s with
        | String c s' => atomMatches a c && k s'
        | EmptyString => false
        end in
      match q with
      | Once => one (matchHere ts' false)
      | Optional => one (matchHere ts' false) || matchHere ts' atStart s
      | Star => many atStart s
      | Plus => one (many false)
      end
  end.

(** A match may start at any position of the input. *)
Fixpoint search (ts : list term) (atStart : bool) (s : string) : bool :=
  matchHere ts atStart s
  || match s with
     | String _ s' => search ts false s'
     | EmptyString => false
     end.

(** [regex.test(s)] for a regular expression without the [g] and [y]
    flags (no [lastIndex] state). *)
Definition test (ts : list term) (s : string) : bool := search ts true s.

(** *** Names without pattern syntax

    A code unit that the pattern grammar reads as itself. *)
Definition plainChar (c : ascii) : bool := negb (oneOf c "\^$.*+?()[]{}|").

Fixpoint plainName (s : string) : bool :=
  match s with
  | EmptyString => true
  | String c s' => plainChar c && plainName s'
  end.

(** The terms a plain name compiles to: one literal per code unit. *)
Fixpoint literalTerms (s : string) : list term :=
  match s with
  | EmptyString => []
  | String c s' => Atom (Char c) Once :: literalTerms s'
  end.

Fixpoint literalTokens (s : string) : list token :=
  match s with
  | EmptyString => []
  | String c s' => TAtom (Char c) :: literalTokens s'
  end.

Definition isQuantifierToken (t : token) : bool :=
  match t with
  | TStar | TPlus | TQuestion => true
  | _ => false
  end.

(** What is left of [s] after the name [p], letter case apart; [None]
    when [s] does not start with [p]. *)
Fixpoint afterName (p s : string) : option string :=
  match p with
  | EmptyString => Some s
  | String a p' =>
      match s with
      | String b s' =>
          if Ascii.eqb (lowerChar a) (lowerChar b) then afterName p' s' else None
      | EmptyString => None
      end
  end.

Fixpoint hasLineTerminator (s : string) : bool :=
  match s with
  | EmptyString => false
  | String c s' => isLineTerminator c || hasLineTerminator s'
  end.

Definition prepend {A} (l : list A) (r : compiled (list A)) : compiled (list A) :=
  match r with
  | Pattern p => Pattern (l ++ p)%list
  | SyntaxError => SyntaxError
  | Unsupported => Unsupported
  end.

(** After the name: a [-], then anything, then [.rpm] at the end. *)
Definition dashThenRpm (s : string) : bool :=
  match s with
  | String c s' => Ascii.eqb "-" (lowerChar c) && endsWith (toLowerCase s') ".rpm"
  | EmptyString => false
  end.

(** The literal [.rpm] at the end of the input. *)
Definition dotRpmAtEnd : list term :=
  [Atom (Char ".") Once; Atom (Char "r") Once; Atom (Char "p") Once;
   Atom (Char "m") Once; AssertEnd].

(** What the pattern source of [main] compiles to for a plain name. *)
Definition nameTerms (pkg : string) : list term :=
  AssertStart
  :: (literalTerms pkg
      ++ Atom (Class false ["-"%char]) Once :: Atom Dot Star :: dotRpmAtEnd)%list.

End RegExp.

(** ** The EPEL 9 RPM auto downloader (the userscript) *)

Module Downloader.
Import JS.

Definition PACKAGES_KEY : string := "epel9_rpm_packages".
Definition INDEX_KEY : string := "epel9_rpm_index".

(** What one run of [main] does to the browser, in program order. *)
Inductive event : Type :=
| Prompt (message : string)
| Alert (message : string)
| ConsoleLog (message : string)
| ConsoleWarn (message : string)
| SetItem (key value : string)
| RemoveItem (key : string)
| Navigate (url : string)
| Download (url : string)
| Sleep (ms : Z)
| Reload.

(** What one run of [main] reads from the page it runs in: what the user
    answers to [prompt] ([None] when the dialog is cancelled),
    [window.location.pathname], [window.location.href], and for each
    anchor of the document, in document order, its [href] attribute
    ([None] when it has none). *)
Record page : Type := Page {
  promptAnswer : option string;
  pathname : string;
  href : string;
  anchors : list (option string)
}.

Inductive error : Type :=
| TypeError
| RegExpSyntaxError.

(** How a piece of [main] ends: it goes on with a value, [main] returns,
    an exception escapes, or the run has left what the model covers. *)
Inductive completion (A : Type) : Type :=
| Normal (a : A)
| Returned
| Thrown (e : error)
| Unmodelled.
Arguments Normal {A} a.
Arguments Returned {A}.
Arguments Thrown {A} e.
Arguments Unmodelled {A}.

(** The state a run threads: [sessionStorage], and the events so far,
    the latest first. *)
Record world : Type := World {
  storage : gmap string string;
  events : list event
}.

Definition M (A : Type) : Type := world -> completion A * world.

#[export] Instance M_ret : MRet M := fun A a w => (Normal a, w).

#[export] Instance M_bind : MBind M := fun A B f m w =>
  match m w with
  | (Normal a, w') => f a w'
  | (Returned, w') => (Returned, w')
  | (Thrown e, w') => (Thrown e, w')
  | (Unmodelled, w') => (Unmodelled, w')
  end.

Definition emit (e : event) : M unit := fun w =>
  (Normal tt, World (storage w) (e :: events w)).

Definition return_ {A} : M A := fun w => (Returned, w).
Definition throw {A} (e : error) : M A := fun w => (Thrown e, w).
Definition unmodelled {A} : M A := fun w => (Unmodelled, w).

(** [sessionStorage.getItem], [setItem], [removeItem] *)
Definition getItem (k : string) : M (option string) := fun w =>
  (Normal (storage w !! k), w).

Definition setItem (k v : string) : M unit := fun w =>
  (Normal tt, World (<[k := v]> (storage w)) (SetItem k v :: events w)).

Definition removeItem (k : string) : M unit := fun w =>
  (Normal tt, World (delete k (storage w)) (RemoveItem k :: events w)).

Definition prompt (pg : page) (message : string) : M (option string) :=
  emit (Prompt message) ;; mret (promptAnswer pg).

Definition alert (message : string) : M unit := emit (Alert message).

(** [await sleep(ms)] *)
Definition sleep (ms : Z) : M unit := emit (Sleep ms).

(** The truth value of what [getItem] or [prompt] returned: [null] and
    the empty string are falsy. *)
Definition truthyOpt (v : option string) : bool :=
  match v with
  | Some s => truthy s
  | None => false
  end.

(** [JSON.parse(sessionStorage.getItem(PACKAGES_KEY))].  A missing entry
    reads as [null], whose [length] the next line cannot take. *)
Definition parsePackages (raw : option string) : M (list string) :=
  match raw with
  | None => throw TypeError
  | Some text =>
      match JSON_parse text with
      | Some packages => mret packages
      | None => unmodelled
      end
  end.

Definition addOne (n : number) : number :=
  match n with
  | NaN => NaN
  | Int z => Int (z + 1)
  end.

Definition numberToString (n : number) : string :=
  match n with
  | NaN => "NaN"
  | Int z => toString z
  end.

Definition quoted (s : string) : string :=
  String dquote s +:+ String dquote EmptyString.

(** The source of the pattern: the package name goes in as it is. *)
Definition patternSource (pkg : string) : string :=
  "^" +:+ pkg +:+ "[-].*\.rpm$".

(** [new RegExp(source, 'i')] *)
Definition newRegExp (source : string) : M (list RegExp.term) :=
  match RegExp.compile source with
  | RegExp.Pattern re => mret re
  | RegExp.SyntaxError => throw RegExpSyntaxError
  | RegExp.Unsupported => unmodelled
  end.

(** [href => href && regex.test(href)] *)
Definition isMatch (re : list RegExp.term) (href : option string) : bool :=
  match href with
  | Some h => truthy h && RegExp.test re h
  | None => false
  end.

(** A new anchor with [href = url] and the [download] attribute set to
    the empty string (the browser names the file after the resource),
    appended to the body, clicked, and removed. *)
Definition clickDownloadLink (url : string) : M unit := emit (Download url).

(** Line 24: what [prompt] shows. *)
Definition promptText : string :=
  "Enter a comma-separated list of EPEL 9 RPM package names (e.g. nano,vim,libappindicator):".

(** Line 36: the alert that starts the walk. *)
Definition startText (pkgs : list string) : string :=
  "Starting download of " +:+ toString (Z.of_nat (length pkgs)) +:+ " packages...".

(** Line 29: [input.split(',').map(p => p.trim()).filter(Boolean)] *)
Definition splitPackages (input : string) : list string :=
  List.filter truthy (map trim (split "," input)).

(** Lines 23-37: no list is stored yet, so ask for one. *)
Definition askForPackages (pg : page) : M unit :=
  input ← prompt pg promptText;
  if negb (truthyOpt input) then
    alert "No packages entered. Script will not run." ;;
    return_
  else
    let pkgs := splitPackages (default EmptyString input) in
    if (length pkgs =? 0)%nat then
      alert "No valid packages entered." ;;
      return_
    else
      setItem PACKAGES_KEY (JSON_stringify pkgs) ;;
      setItem INDEX_KEY "0" ;;
      alert (startText pkgs).

(** Line 52: the folder of the packages that start with [firstLetter]. *)
Definition expectedPathOf (firstLetter : string) : string :=
  "/pub/epel/9/Everything/x86_64/Packages/" +:+ firstLetter +:+ "/".

(** Lines 50-91: the package [pkg = packages[index]] is dealt with.
    Taking [pkg[0]] of the empty string gives [undefined], and calling
    [toLowerCase] on that throws. *)
Definition processPackage (pg : page) (index : number) (pkg : string) : M unit :=
  match charAt0 pkg with
  | None => throw TypeError
  | Some first =>
      let firstLetter := toLowerCase first in
      let currentPath := pathname pg in
      let expectedPath := expectedPathOf firstLetter in
      if negb (startsWith currentPath expectedPath) then
        let fullUrl := "https://dl.fedoraproject.org" +:+ expectedPath in
        emit (ConsoleLog ("Navigating to directory for package " +:+ quoted pkg +:+ "...")) ;;
        emit (Navigate fullUrl) ;;
        return_
      else
        regex ← newRegExp (patternSource pkg);
        let matchedLinks := List.filter (isMatch regex) (anchors pg) in
        match matchedLinks with
        | [] =>
            emit (ConsoleWarn ("No RPM found for package " +:+ quoted pkg)) ;;
            setItem INDEX_KEY (numberToString (addOne index)) ;;
            emit Reload ;;
            return_
        | first :: _ =>
            let rpmUrl := href pg +:+ default "null" first in
            emit (ConsoleLog ("Downloading: " +:+ rpmUrl)) ;;
            clickDownloadLink rpmUrl ;;
            setItem INDEX_KEY (numberToString (addOne index)) ;;
            sleep 3000 ;;
            emit Reload
        end
  end.

(** [main], lines 21-92. *)
Definition main (pg : page) : M unit :=
  stored ← getItem PACKAGES_KEY;
  (if negb (truthyOpt stored) then askForPackages pg else mret tt) ;;
  raw ← getItem PACKAGES_KEY;
  packages ← parsePackages raw;
  rawIndex ← getItem INDEX_KEY;
  let index := parseInt10_item rawIndex in
  if geLength index (length packages) then
    alert "All packages processed!" ;;
    removeItem PACKAGES_KEY ;;
    removeItem INDEX_KEY ;;
    return_
  else
    match JS.index packages index with
    | None => throw TypeError
    | Some pkg => processPackage pg index pkg
    end.

(** One invocation of the script on a page, from the given contents of
    [sessionStorage]: how [main] ended, the storage it left, and what it
    did, in program order. *)
Definition runOf (m : M unit) (st : gmap string string)
  : completion unit * gmap string string * list event :=
  let '(c, w) := m (World st []) in (c, storage w, rev (events w)).

Definition run (pg : page) (st : gmap string string)
  : completion unit * gmap string string * list event :=
  runOf (main pg) st.

Definition completionOf {A B C} (r : A * B * C) : A := r.1.1.
Definition storageOf {A B C} (r : A * B * C) : B := r.1.2.
Definition traceOf {A B C} (r : A * B * C) : C := r.2.

(** Line 40: the cursor as [main] reads it back. *)
Definition cursorOf (st : gmap string string) : number :=
  parseInt10_item (st !! INDEX_KEY).

(** The two entries as the script itself writes them (lines 34-35, 71
    and 88): the list [W] under [PACKAGES_KEY], the cursor [c] under
    [INDEX_KEY]. *)
Definition persisted (W : list string) (c : nat) (st : gmap string string) : Prop :=
  st !! PACKAGES_KEY = Some (JSON_stringify W)
  /\ st !! INDEX_KEY = Some (toString (Z.of_nat c)).

(** Line 55 read as a condition on the page: is it the folder of [pkg]? *)
Definition inFolderOf (pg : page) (pkg : string) : bool :=
  match charAt0 pkg with
  | Some first => startsWith (pathname pg) (expectedPathOf (toLowerCase first))
  | None => false
  end.

(** Observations on a trace. *)
Definition downloads (tr : list event) : list string :=
  omap (fun e => match e with Download url => Some url | _ => None end) tr.

Definition navigations (tr : list event) : list string :=
  omap (fun e => match e with Navigate url => Some url | _ => None end) tr.

Definition alerts (tr : list event) : list string :=
  omap (fun e => match e with Alert m => Some m | _ => None end) tr.

Definition writes (tr : list event) : list event :=
  List.filter (fun e => match e with SetItem _ _ | RemoveItem _ => true | _ => false end) tr.

(** The pauses that stand before a [Reload] in a trace: for each reload,
    in order, the durations of the [Sleep]s since the event that is not a
    [Sleep] before it. *)
Fixpoint pausesBeforeReload (pending : list Z) (tr : list event) : list (list Z) :=
  match tr with
  | [] => []
  | Sleep ms :: tr' => pausesBeforeReload (pending ++ [ms]) tr'
  | Reload :: tr' => pending :: pausesBeforeReload [] tr'
  | _ :: tr' => pausesBeforeReload [] tr'
  end.

(** The storage after the script ran on each page of [pgs] in turn (each
    reload or navigation starts the script again on the storage the run
    before left). *)
Definition invocations (pgs : list page) (st : gmap string string)
  : gmap string string :=
  foldl (fun st pg => storageOf (run pg st)) st pgs.

(** What an invocation does to the two entries of a stored walk. *)
Inductive change : Type := Keep | Advance | Clear.

Definition applyChange (c : nat) (ch : change) (st : gmap string string)
  : gmap string string :=
  match ch with
  | Keep => st
  | Advance => <[INDEX_KEY := toString (Z.of_nat c + 1)]> st
  | Clear => delete INDEX_KEY (delete PACKAGES_KEY st)
  end.

(** The ways one invocation can go when the list [W] and the cursor [c]
    are stored: how [main] ends, what becomes of the two entries, and the
    events in program order.  [main_invocation] below shows that [main]
    always goes one of these ways. *)
Inductive invocation (pg : page) (W : list string) (c : nat)
  : completion unit -> change -> list event -> Prop :=
| WalkDone :
    length W <= c ->
    invocation pg W c Returned Clear
      [Alert "All packages processed!"; RemoveItem PACKAGES_KEY; RemoveItem INDEX_KEY]
| NoFirstLetter pkg :
    W !! c = Some pkg ->
    charAt0 pkg = None ->
    invocation pg W c (Thrown TypeError) Keep []
| Navigating pkg first :
    W !! c = Some pkg ->
    charAt0 pkg = Some first ->
    startsWith (pathname pg) (expectedPathOf (toLowerCase first)) = false ->
    invocation pg W c Returned Keep
      [ConsoleLog ("Navigating to directory for package " +:+ quoted pkg +:+ "...");
       Navigate ("https://dl.fedoraproject.org" +:+ expectedPathOf (toLowerCase first))]
| BadPattern pkg :
    W !! c = Some pkg ->
    inFolderOf pg pkg = true ->
    RegExp.compile (patternSource pkg) = RegExp.SyntaxError ->
    invocation pg W c (Thrown RegExpSyntaxError) Keep []
| PatternNotCovered pkg :
    W !! c = Some pkg ->
    inFolderOf pg pkg = true ->
    RegExp.compile (patternSource pkg) = RegExp.Unsupported ->
    invocation pg W c Unmodelled Keep []
| NotFound pkg re :
    W !! c = Some pkg ->
    inFolderOf pg pkg = true ->
    RegExp.compile (patternSource pkg) = RegExp.Pattern re ->
    List.filter (isMatch re) (anchors pg) = [] ->
    invocation pg W c Returned Advance
      [ConsoleWarn ("No RPM found for package " +:+ quoted pkg);
       SetItem INDEX_KEY (toString (Z.of_nat c + 1)); Reload]
| Fetching pkg re first rest :
    W !! c = Some pkg ->
    inFolderOf pg pkg = true ->
    RegExp.compile (patternSource pkg) = RegExp.Pattern re ->
    List.filter (isMatch re) (anchors pg) = first :: rest ->
    invocation pg W c (Normal tt) Advance
      [ConsoleLog ("Downloading: " +:+ (href pg +:+ default "null" first));
       Download (href pg +:+ default "null" first);
       SetItem INDEX_KEY (toString (Z.of_nat c + 1)); Sleep 3000; Reload].

(** The world after lines 34-36, when the list [pkgs] was entered. *)
Definition startedWorld (pkgs : list string) (w : world) : world :=
  World (<[INDEX_KEY := "0"]> (<[PACKAGES_KEY := JSON_stringify pkgs]> (storage w)))
        (Alert (startText pkgs) :: SetItem INDEX_KEY "0"
           :: SetItem PACKAGES_KEY (JSON_stringify pkgs) :: Prompt promptText :: events w).

(** The alert of lines 26 and 31, for an answer that gives no package. *)
Definition refusalText (answer : option string) : string :=
  if truthyOpt answer then "No valid packages entered."
  else "No packages entered. Script will not run.".

(** The world after lines 43-45. *)
Definition doneWorld (w : world) : world :=
  World (delete INDEX_KEY (delete PACKAGES_KEY (storage w)))
        (RemoveItem INDEX_KEY :: RemoveItem PACKAGES_KEY
           :: Alert "All packages processed!" :: events w).

(** The world after the cursor moved past [idx] and the events [es]
    (latest first) were added. *)
Definition advanced (idx : number) (w : world) (es : list event) : world :=
  World (<[INDEX_KEY := numberToString (addOne idx)]> (storage w)) (es ++ events w).

End Downloader.

(** ** [get-epo-packages-list.js]: a table of the page as a CSV download *)

Module EpoList.
Import JS.

(** What the script reads from the page: the [innerText] of each [td] or
    [th] of [#PackageTable_headerTable], and for each [tbody tr] of
    [#PackageTable_dataTable] the [innerText] of each of its [td]s, all in
    document order; [None] when [querySelector] finds no such element. *)
Record document : Type := Document {
  headerTable : option (list string);
  dataTable : option (list (list string))
}.

Inductive event : Type :=
| ConsoleError (message : string)
| ClickDownload (filename mimeType content : string)
| RevokeObjectURL.

Section Script.

(** The properties every object inherits from [Object.prototype]
    ([constructor], [toString], ...): for the name of one, the text
    [join] turns its value into; [None] for any other name.  The text
    is the engine's own. *)
Variable objectPrototype : string -> option string.

(** [Object.fromEntries]: later entries overwrite earlier ones with the
    same key. *)
Definition fromEntries (entries : list (string * string)) : gmap string string :=
  foldl (fun obj kv => <[kv.1 := kv.2]> obj) ∅ entries.

(** The property key [headers[i]] turns into: past the end of the array
    it is [undefined]. *)
Definition headerKey (headers : list string) (i : nat) : string :=
  default "undefined" (headers !! i).

(** Lines 8-10. *)
Definition readHeaders (cells : list string) : list string :=
  List.filter truthy (map trim cells).

(** Lines 13-15: one body row as an object. *)
Definition rowObject (headers : list string) (row : list string) : gmap string string :=
  let cells := drop 1 (map trim row) in
  fromEntries (imap (fun i cell => (headerKey headers i, cell)) cells).

(** [Object.values(row).some(val => val)] *)
Definition hasValue (obj : gmap string string) : bool :=
  existsb truthy (map snd (map_to_list obj)).

(** [row[header] || ''], as [join] prints it: the row's own cell, or
    what the row inherits under that name. *)
Definition cellText (obj : gmap string string) (header : string) : string :=
  match obj !! header with
  | Some v => if truthy v then v else EmptyString
  | None =>
      match objectPrototype header with
      | Some text => text
      | None => EmptyString
      end
  end.

Definition newline : string := String (ascii_of_N 10) EmptyString.

(** Lines 12-22. *)
Definition csvText (headers : list string) (rows : list (list string)) : string :=
  let data := List.filter hasValue (map (rowObject headers) rows) in
  join newline
    (join "," headers
     :: map (fun row => join "," (map (fun header => cellText row header) headers)) data).

(** The whole script. *)
Definition script (doc : document) : list event :=
  match dataTable doc, headerTable doc with
  | Some rows, Some headerCells =>
      let headers := readHeaders headerCells in
      let csv := csvText headers rows in
      [ClickDownload "data.csv" "text/csv" csv; RevokeObjectURL]
  | _, _ => [ConsoleError "Table or headers not found."]
  end.

(** *** The same, read column by column

    A body row, first column dropped, as the list of its columns: each
    cell with the key of its header. *)
Definition columns (headers : list string) (row : list string) : list (string * string) :=
  imap (fun i cell => (headerKey headers i, cell)) (drop 1 (map trim row)).

(** The cell a row shows under the key [k]: the one of the last column
    with that key. *)
Definition under (cols : list (string * string)) (k : string) : option string :=
  snd <$> List.find (fun kv => String.eqb kv.1 k) (rev cols).

(** Is some cell that the row shows non-empty? *)
Definition showsValue (cols : list (string * string)) : bool :=
  existsb
    (fun kv => match under cols kv.1 with Some v => truthy v | None => false end)
    cols.

(** What is printed under [header] for a row. *)
Definition printed (cols : list (string * string)) (header : string) : string :=
  match under cols header with
  | Some v => v
  | None => default EmptyString (objectPrototype header)
  end.

(** A table is regular for the headers [hs] when no header repeats and
    every body row has one cell more than there are headers. *)
Definition regular (hs : list string) (rows : list (list string)) : Prop :=
  NoDup hs /\ Forall (fun row => length row = S (length hs)) rows.

End Script.

End EpoList.

(** ** The target predicate in the words of the specification

    "Matching item name against a filename pattern anchored at start,
    case-insensitive, requiring a [-] separator before any suffix, ending
    in a fixed extension": the file name starts with the item name followed
    by [-], and ends in [.rpm], letter case apart.  This definition follows
    the specification, not the code; the facts below compare the two. *)

Module Spec.
Import JS.

Definition matchesName (item filename : string) : bool :=
  startsWith (toLowerCase filename) (toLowerCase (item +:+ "-"))
  && endsWith (toLowerCase filename) ".rpm".

End Spec.

(** ** Example pages and storages, for the scenarios of the specification *)

Module Examples.
Import JS Downloader.

(** The folder [n/], holding two files for [nano]. *)
Definition pgA : page :=
  Page None "/pub/epel/9/Everything/x86_64/Packages/n/"
    "https://dl.fedoraproject.org/pub/epel/9/Everything/x86_64/Packages/n/"
    [Some "../"; None; Some "nano-6.2-1.el9.x86_64.rpm"; Some "nano-doc-6.2-1.el9.rpm"].

(** The folder [v/], holding nothing for [vim]. *)
Definition pgV : page :=
  Page None "/pub/epel/9/Everything/x86_64/Packages/v/"
    "https://dl.fedoraproject.org/pub/epel/9/Everything/x86_64/Packages/v/"
    [Some "../"; Some "vala-0.56.rpm"].

(** The folder [g/], holding a compiler package. *)
Definition pgG : page :=
  Page None "/pub/epel/9/Everything/x86_64/Packages/g/"
    "https://dl.fedoraproject.org/pub/epel/9/Everything/x86_64/Packages/g/"
    [Some "../"; Some "gcc-c++-11.5.0-5.el9.x86_64.rpm"; Some "gtk+-1.2.10-1.el9.x86_64.rpm"].

(** The storage that holds the list [W] and the cursor [c], nothing else. *)
Definition stored (W : list string) (c : nat) : gmap string string :=
  <[INDEX_KEY := toString (Z.of_nat c)]> (<[PACKAGES_KEY := JSON_stringify W]> ∅).

End Examples.

(** ** One invocation on any storage, and a walk over several pages *)

Module Outcomes.
Import JS Downloader.

(** How many times a trace reloads the page, and what it asks. *)
Definition reloads (tr : list event) : nat :=
  length (List.filter (fun e => match e with Reload => true | _ => false end) tr).

Definition prompts (tr : list event) : list string :=
  omap (fun e => match e with Prompt m => Some m | _ => None end) tr.

(** Lines 34-36: the storage and the events of a first invocation whose
    answer gave the list [pkgs]. *)
Definition startedStorage (pkgs : list string) (st : gmap string string)
  : gmap string string :=
  <[INDEX_KEY := "0"]> (<[PACKAGES_KEY := JSON_stringify pkgs]> st).

Definition startEvents (pkgs : list string) : list event :=
  [Prompt promptText; SetItem PACKAGES_KEY (JSON_stringify pkgs);
   SetItem INDEX_KEY "0"; Alert (startText pkgs)].

(** Lines 42-91 on any array [packages] and any number [idx] that lines
    39-40 may have read, from the storage [st]: how [main] ends, the
    storage it leaves, and the events in program order. *)
Inductive walked (pg : page) (packages : list string) (idx : number)
    (st : gmap string string)
  : completion unit -> gmap string string -> list event -> Prop :=
| AtEnd :
    geLength idx (length packages) = true ->
    walked pg packages idx st Returned (delete INDEX_KEY (delete PACKAGES_KEY st))
      [Alert "All packages processed!"; RemoveItem PACKAGES_KEY; RemoveItem INDEX_KEY]
| NoItem :
    geLength idx (length packages) = false ->
    index packages idx = None ->
    walked pg packages idx st (Thrown TypeError) st []
| EmptyName pkg :
    geLength idx (length packages) = false ->
    index packages idx = Some pkg ->
    charAt0 pkg = None ->
    walked pg packages idx st (Thrown TypeError) st []
| GoToFolder pkg first :
    geLength idx (length packages) = false ->
    index packages idx = Some pkg ->
    charAt0 pkg = Some first ->
    startsWith (pathname pg) (expectedPathOf (toLowerCase first)) = false ->
    walked pg packages idx st Returned st
      [ConsoleLog ("Navigating to directory for package " +:+ quoted pkg +:+ "...");
       Navigate ("https://dl.fedoraproject.org" +:+ expectedPathOf (toLowerCase first))]
| PatternRefused pkg :
    geLength idx (length packages) = false ->
    index packages idx = Some pkg ->
    inFolderOf pg pkg = true ->
    RegExp.compile (patternSource pkg) = RegExp.SyntaxError ->
    walked pg packages idx st (Thrown RegExpSyntaxError) st []
| PatternOutside pkg :
    geLength idx (length packages) = false ->
    index packages idx = Some pkg ->
    inFolderOf pg pkg = true ->
    RegExp.compile (patternSource pkg) = RegExp.Unsupported ->
    walked pg packages idx st Unmodelled st []
| Missing pkg re :
    geLength idx (length packages) = false ->
    index packages idx = Some pkg ->
    inFolderOf pg pkg = true ->
    RegExp.compile (patternSource pkg) = RegExp.Pattern re ->
    List.filter (isMatch re) (anchors pg) = [] ->
    walked pg packages idx st Returned
      (<[INDEX_KEY := numberToString (addOne idx)]> st)
      [ConsoleWarn ("No RPM found for package " +:+ quoted pkg);
       SetItem INDEX_KEY (numberToString (addOne idx)); Reload]
| Fetched pkg re first rest :
    geLength idx (length packages) = false ->
    index packages idx = Some pkg ->
    inFolderOf pg pkg = true ->
    RegExp.compile (patternSource pkg) = RegExp.Pattern re ->
    List.filter (isMatch re) (anchors pg) = first :: rest ->
    walked pg packages idx st (Normal tt)
      (<[INDEX_KEY := numberToString (addOne idx)]> st)
      [ConsoleLog ("Downloading: " +:+ (href pg +:+ default "null" first));
       Download (href pg +:+ default "null" first);
       SetItem INDEX_KEY (numberToString (addOne idx)); Sleep 3000; Reload].

(** The ways one invocation can go from any contents [st] of
    [sessionStorage], written by the script or not.  [run_ran] below
    shows that [main] always goes one of these ways. *)
Inductive ran (pg : page) (st : gmap string string)
  : completion unit -> gmap string string -> list event -> Prop :=
| Refused :
    truthyOpt (st !! PACKAGES_KEY) = false ->
    splitPackages (default EmptyString (promptAnswer pg)) = [] ->
    ran pg st Returned st [Prompt promptText; Alert (refusalText (promptAnswer pg))]
| Started p ps comp st' es :
    truthyOpt (st !! PACKAGES_KEY) = false ->
    splitPackages (default EmptyString (promptAnswer pg)) = p :: ps ->
    walked pg (p :: ps) (Int 0) (startedStorage (p :: ps) st) comp st' es ->
    ran pg st comp st' (startEvents (p :: ps) ++ es)%list
| NotAList text :
    st !! PACKAGES_KEY = Some text ->
    truthy text = true ->
    JSON_parse text = None ->
    ran pg st Unmodelled st []
| Resumed text packages comp st' es :
    st !! PACKAGES_KEY = Some text ->
    truthy text = true ->
    JSON_parse text = Some packages ->
    walked pg packages (cursorOf st) st comp st' es ->
    ran pg st comp st' es.

(** The run stayed within what the model covers: the stored text was an
    array of strings and the pattern one this file can read. *)
Definition covered {A B C} (r : completion A * B * C) : Prop :=
  completionOf r <> Unmodelled.

(** The events of the invocations on each page of [pgs] in turn, one
    after the other. *)
Fixpoint walkTrace (pgs : list page) (st : gmap string string) : list event :=
  match pgs with
  | [] => []
  | pg :: rest => (traceOf (run pg st) ++ walkTrace rest (storageOf (run pg st)))%list
  end.

(** Lines 64-77: the address that an invocation in the folder of [pkg]
    downloads, [None] when no link of the page matches. *)
Definition firstMatch (pg : page) (pkg : string) : option string :=
  match RegExp.compile (patternSource pkg) with
  | RegExp.Pattern re =>
      match List.filter (isMatch re) (anchors pg) with
      | first :: _ => Some (href pg +:+ default "null" first)
      | [] => None
      end
  | _ => None
  end.

(** One piece of an answer to the prompt: a name with white space before
    and after it. *)
Definition typed (e : string * string * string) : string := e.1.1 +:+ e.1.2 +:+ e.2.

Definition named (e : string * string * string) : string := e.1.2.

Definition wellTyped (e : string * string * string) : Prop :=
  allWhiteSpace e.1.1 = true /\ allWhiteSpace e.2 = true
  /\ occursIn "," (named e) = false
  /\ startsWithWhiteSpace (named e) = false /\ endsWithWhiteSpace (named e) = false.

End Outcomes.

(** ** The table of [get-epo-packages-list.js], cell by cell *)

Module Table.
Import JS EpoList.

Definition lineFeed : ascii := ascii_of_N 10.

(** A field that holds neither a comma nor a line feed. *)
Definition plainField (s : string) : bool :=
  negb (occursIn "," s) && negb (occursIn lineFeed s).

(** Line 13: the cells of a body row that the script reads, trimmed, the
    first left out. *)
Definition cellsOf (row : list string) : list string := drop 1 (map trim row).

(** Line 15: each cell with the key of its header. *)
Definition keyed (headers cells : list string) : list (string * string) :=
  imap (fun i cell => (headerKey headers i, cell)) cells.

End Table.

(** * Facts *)

Import JS Downloader Examples.

(** ** Numbers and JSON cross [sessionStorage] unchanged *)

Lemma digitsPrefix_uint d a :
  digitsPrefix (NilEmpty.string_of_uint d) (Some (Z.of_N (Unsigned.of_lu a)))
  = Some (Z.of_N (Unsigned.of_lu (Decimal.revapp d a))).
Proof.
  revert a. induction d; intros a; [reflexivity | ..];
    (etransitivity; [| apply IHd]);
    cbn [NilEmpty.string_of_uint digitsPrefix];
    (replace (isDigit _) with true by reflexivity); cbv iota;
    do 2 f_equal; cbn [Unsigned.of_lu default];
    match goal with
    | |- context [code ?c] =>
        let v := eval vm_compute in (code c) in change (code c) with v
    end;
    unfold id; lia.
Qed.

Lemma digitsPrefix_nonnil d :
  d <> Decimal.Nil ->
  digitsPrefix (NilEmpty.string_of_uint d) None
  = Some (Z.of_N (Unsigned.of_lu (Decimal.rev d))).
Proof.
  intros Hd. unfold Decimal.rev.
  destruct d; [congruence | ..];
    cbn [NilEmpty.string_of_uint digitsPrefix];
    (replace (isDigit _) with true by reflexivity); cbv iota;
    cbn [Decimal.revapp]; rewrite <- digitsPrefix_uint; reflexivity.
Qed.

Lemma trimStart_uint d : trimStart (NilEmpty.string_of_uint d) = NilEmpty.string_of_uint d.
Proof. destruct d; reflexivity. Qed.

Lemma parseInt10_pos p : parseInt10 (NilEmpty.string_of_uint (Pos.to_uint p)) = Int (Z.pos p).
Proof.
  unfold parseInt10. rewrite trimStart_uint.
  pose proof (Unsigned.to_uint_nonnil p) as Hn.
  pose proof (digitsPrefix_nonnil _ Hn) as Hd.
  rewrite <- Unsigned.of_uint_alt, Unsigned.of_to in Hd.
  destruct (Pos.to_uint p) eqn:E; [congruence | ..];
    cbn [NilEmpty.string_of_uint] in *;
    cbv beta iota; rewrite Hd; reflexivity.
Qed.

Lemma parseInt10_toString z : parseInt10 (toString z) = Int z.
Proof.
  destruct z as [| p | p]; [reflexivity | ..]; unfold toString; cbn [Z.to_int NilZero.string_of_int].
  - unfold NilZero.string_of_uint.
    pose proof (Unsigned.to_uint_nonnil p).
    rewrite <- parseInt10_pos. destruct (Pos.to_uint p); congruence.
  - unfold NilZero.string_of_uint.
    pose proof (Unsigned.to_uint_nonnil p) as Hn.
    pose proof (digitsPrefix_nonnil _ Hn) as Hd.
    rewrite <- Unsigned.of_uint_alt, Unsigned.of_to in Hd.
    unfold parseInt10. cbn [trimStart]. replace (isWhiteSpace "-") with false by reflexivity.
    cbv iota beta.
    destruct (Pos.to_uint p); [congruence | ..]; rewrite Hd; reflexivity.
Qed.

Lemma parseArray_quoteChar c items acc k :
  parseArray (InString items acc) (quoteChar c k)
  = parseArray (InString items (c :: acc)) k.
Proof. destruct c as [[] [] [] [] [] [] [] []]; reflexivity. Qed.

Lemma parseArray_quoteBody s items acc k :
  parseArray (InString items acc) (quoteBody s k)
  = parseArray (InString items (rev_append (list_ascii_of_string s) acc)) k.
Proof.
  revert acc. induction s as [| c s IH]; intros acc; [reflexivity |].
  cbn [quoteBody list_ascii_of_string rev_append].
  now rewrite parseArray_quoteChar, IH.
Qed.

Lemma parseArray_quote s items k :
  parseArray (AfterComma items) (quote s k) = parseArray (AfterString (s :: items)) k.
Proof.
  unfold quote. change (parseArray (AfterComma items) (String dquote ?r))
    with (parseArray (InString items []) r).
  rewrite parseArray_quoteBody.
  change (parseArray (InString items ?a) (String dquote k))
    with (parseArray (AfterString (finishString items a)) k).
  unfold finishString.
  now rewrite rev_append_rev, app_nil_r, rev_involutive, string_of_list_ascii_of_string.
Qed.

Lemma parseArray_items l items :
  l <> [] ->
  parseArray (AfterComma items) (stringifyItems l "]") = Some (rev items ++ l)%list.
Proof.
  revert items. induction l as [| s l IH]; intros items Hl; [congruence |].
  destruct l as [| s' l].
  - cbn [stringifyItems]. rewrite parseArray_quote. reflexivity.
  - change (stringifyItems (s :: s' :: l) "]")
      with (quote s (String "," (stringifyItems (s' :: l) "]"))).
    rewrite parseArray_quote.
    change (parseArray (AfterString ?i) (String "," ?r)) with (parseArray (AfterComma i) r).
    rewrite IH by congruence. cbn [rev]. now rewrite <- app_assoc.
Qed.

Lemma JSON_parse_stringify l : JSON_parse (JSON_stringify l) = Some l.
Proof.
  destruct l as [| s l]; [reflexivity |].
  unfold JSON_parse, JSON_stringify.
  change (parseArray BeforeArray (String "[" ?r)) with (parseArray AfterOpen r).
  transitivity (parseArray (AfterComma []) (stringifyItems (s :: l) "]")).
  - destruct l; reflexivity.
  - now rewrite parseArray_items.
Qed.

Lemma truthy_JSON_stringify l : truthy (JSON_stringify l) = true.
Proof. reflexivity. Qed.

(** ** The steps of the run monad *)

Section Steps.
Context {A B : Type}.
Implicit Types (f : A -> M B) (w : world).

Lemma bind_mret (a : A) f w : (mret a ≫= f) w = f a w.
Proof. reflexivity. Qed.

Lemma bind_return_ f w : (return_ ≫= f) w = (Returned, w).
Proof. reflexivity. Qed.

Lemma bind_throw e f w : (throw e ≫= f) w = (Thrown e, w).
Proof. reflexivity. Qed.

Lemma bind_unmodelled f w : (unmodelled ≫= f) w = (Unmodelled, w).
Proof. reflexivity. Qed.
End Steps.

Section UnitSteps.
Context {B : Type}.
Implicit Types (w : world).

Lemma bind_getItem k (f : option string -> M B) w :
  (getItem k ≫= f) w = f (storage w !! k) w.
Proof. reflexivity. Qed.

Lemma bind_emit e (f : unit -> M B) w :
  (emit e ≫= f) w = f tt (World (storage w) (e :: events w)).
Proof. reflexivity. Qed.

Lemma bind_alert m (f : unit -> M B) w :
  (alert m ≫= f) w = f tt (World (storage w) (Alert m :: events w)).
Proof. reflexivity. Qed.

Lemma bind_sleep ms (f : unit -> M B) w :
  (sleep ms ≫= f) w = f tt (World (storage w) (Sleep ms :: events w)).
Proof. reflexivity. Qed.

Lemma bind_click url (f : unit -> M B) w :
  (clickDownloadLink url ≫= f) w = f tt (World (storage w) (Download url :: events w)).
Proof. reflexivity. Qed.

Lemma bind_setItem k v (f : unit -> M B) w :
  (setItem k v ≫= f) w
  = f tt (World (<[k := v]> (storage w)) (SetItem k v :: events w)).
Proof. reflexivity. Qed.

Lemma bind_removeItem k (f : unit -> M B) w :
  (removeItem k ≫= f) w
  = f tt (World (delete k (storage w)) (RemoveItem k :: events w)).
Proof. reflexivity. Qed.

Lemma bind_prompt pg m (f : option string -> M B) w :
  (prompt pg m ≫= f) w
  = f (promptAnswer pg) (World (storage w) (Prompt m :: events w)).
Proof. reflexivity. Qed.
End UnitSteps.

Ltac step :=
  first
    [ rewrite bind_getItem | rewrite bind_emit | rewrite bind_alert
    | rewrite bind_sleep | rewrite bind_click | rewrite bind_setItem
    | rewrite bind_removeItem | rewrite bind_prompt | rewrite bind_mret
    | rewrite bind_return_ | rewrite bind_throw | rewrite bind_unmodelled ];
  cbn [storage events].

Lemma geLength_nat c n : geLength (Int (Z.of_nat c)) n = (n <=? c)%nat.
Proof.
  unfold geLength. destruct (Nat.leb_spec n c); [apply Z.leb_le | apply Z.leb_gt]; lia.
Qed.

Lemma index_nat {A} (l : list A) c : index l (Int (Z.of_nat c)) = l !! c.
Proof.
  unfold index. destruct (Z.ltb_spec (Z.of_nat c) 0); [lia |]. now rewrite Nat2Z.id.
Qed.

Lemma main_persisted pg W c w :
  persisted W c (storage w) ->
  main pg w =
    if (length W <=? c)%nat then (Returned, doneWorld w)
    else match W !! c with
         | Some pkg => processPackage pg (Int (Z.of_nat c)) pkg w
         | None => (Thrown TypeError, w)
         end.
Proof.
  intros [HW Hc]. unfold main.
  step. rewrite HW. cbn [truthyOpt]. rewrite truthy_JSON_stringify. cbn [negb].
  step. step. rewrite HW. unfold parsePackages. rewrite JSON_parse_stringify.
  step. step. rewrite Hc. cbn [parseInt10_item]. rewrite parseInt10_toString.
  rewrite geLength_nat, index_nat.
  destruct (length W <=? c)%nat.
  - repeat step. destruct w; reflexivity.
  - destruct (W !! c); reflexivity.
Qed.

Lemma processPackage_elsewhere pg idx pkg first w :
  charAt0 pkg = Some first ->
  startsWith (pathname pg) (expectedPathOf (toLowerCase first)) = false ->
  processPackage pg idx pkg w =
    (Returned,
     World (storage w)
       (Navigate ("https://dl.fedoraproject.org" +:+ expectedPathOf (toLowerCase first))
        :: ConsoleLog ("Navigating to directory for package " +:+ quoted pkg +:+ "...")
        :: events w)).
Proof.
  intros Hfirst Hpath. unfold processPackage. rewrite Hfirst.
  cbv zeta. rewrite Hpath. cbn [negb]. repeat step. reflexivity.
Qed.

Lemma inFolderOf_true pg pkg :
  inFolderOf pg pkg = true ->
  exists first, charAt0 pkg = Some first
    /\ startsWith (pathname pg) (expectedPathOf (toLowerCase first)) = true.
Proof.
  unfold inFolderOf. destruct (charAt0 pkg) as [first |]; [eauto | discriminate].
Qed.

Lemma processPackage_here pg idx pkg re w :
  inFolderOf pg pkg = true ->
  RegExp.compile (patternSource pkg) = RegExp.Pattern re ->
  processPackage pg idx pkg w =
    match List.filter (isMatch re) (anchors pg) with
    | [] =>
        (Returned,
         advanced idx w
           [Reload; SetItem INDEX_KEY (numberToString (addOne idx));
            ConsoleWarn ("No RPM found for package " +:+ quoted pkg)])
    | first :: _ =>
        (Normal tt,
         advanced idx w
           [Reload; Sleep 3000; SetItem INDEX_KEY (numberToString (addOne idx));
            Download (href pg +:+ default "null" first);
            ConsoleLog ("Downloading: " +:+ (href pg +:+ default "null" first))])
    end.
Proof.
  intros (first & Hfirst & Hpath)%inFolderOf_true Hre.
  unfold processPackage. rewrite Hfirst. cbv zeta. rewrite Hpath. cbn [negb].
  unfold newRegExp. rewrite Hre. step.
  destruct (List.filter (isMatch re) (anchors pg)) as [| h rest]; repeat step; reflexivity.
Qed.

Lemma processPackage_bad_pattern pg idx pkg w :
  inFolderOf pg pkg = true ->
  RegExp.compile (patternSource pkg) = RegExp.SyntaxError ->
  processPackage pg idx pkg w = (Thrown RegExpSyntaxError, w).
Proof.
  intros (first & Hfirst & Hpath)%inFolderOf_true Hre.
  unfold processPackage. rewrite Hfirst. cbv zeta. rewrite Hpath. cbn [negb].
  unfold newRegExp. rewrite Hre. now step.
Qed.

Lemma persisted_advance W c st :
  persisted W c st ->
  persisted W (S c) (<[INDEX_KEY := toString (Z.of_nat c + 1)]> st).
Proof.
  intros [HW Hc]. split.
  - rewrite lookup_insert_ne; [exact HW | discriminate].
  - rewrite lookup_insert_eq. do 2 f_equal. lia.
Qed.

Lemma cursorOf_persisted W c st : persisted W c st -> cursorOf st = Int (Z.of_nat c).
Proof. intros [_ Hc]. unfold cursorOf. rewrite Hc. apply parseInt10_toString. Qed.

Lemma lookup_lt_is_Some' {A} (l : list A) c : c < length l -> exists x, l !! c = Some x.
Proof. intros H. destruct (lookup_lt_is_Some_2 l c H) as [x Hx]. eauto. Qed.

Lemma run_here pg st W c pkg re :
  persisted W c st -> W !! c = Some pkg ->
  inFolderOf pg pkg = true ->
  RegExp.compile (patternSource pkg) = RegExp.Pattern re ->
  run pg st =
    match List.filter (isMatch re) (anchors pg) with
    | [] =>
        (Returned, <[INDEX_KEY := toString (Z.of_nat c + 1)]> st,
         [ConsoleWarn ("No RPM found for package " +:+ quoted pkg);
          SetItem INDEX_KEY (toString (Z.of_nat c + 1)); Reload])
    | first :: _ =>
        (Normal tt, <[INDEX_KEY := toString (Z.of_nat c + 1)]> st,
         [ConsoleLog ("Downloading: " +:+ (href pg +:+ default "null" first));
          Download (href pg +:+ default "null" first);
          SetItem INDEX_KEY (toString (Z.of_nat c + 1)); Sleep 3000; Reload])
    end.
Proof.
  intros Hp Hpkg Hin Hre. unfold run, runOf.
  rewrite (main_persisted pg W c) by exact Hp.
  pose proof (lookup_lt_Some _ _ _ Hpkg) as Hlt.
  destruct (Nat.leb_spec (length W) c); [lia |]. rewrite Hpkg.
  rewrite (processPackage_here pg _ pkg re) by assumption.
  destruct (List.filter (isMatch re) (anchors pg)); reflexivity.
Qed.

Lemma run_elsewhere pg st W c pkg first :
  persisted W c st -> W !! c = Some pkg ->
  charAt0 pkg = Some first ->
  startsWith (pathname pg) (expectedPathOf (toLowerCase first)) = false ->
  run pg st =
    (Returned, st,
     [ConsoleLog ("Navigating to directory for package " +:+ quoted pkg +:+ "...");
      Navigate ("https://dl.fedoraproject.org" +:+ expectedPathOf (toLowerCase first))]).
Proof.
  intros Hp Hpkg Hfirst Hpath. unfold run, runOf.
  rewrite (main_persisted pg W c) by exact Hp.
  pose proof (lookup_lt_Some _ _ _ Hpkg) as Hlt.
  destruct (Nat.leb_spec (length W) c); [lia |]. rewrite Hpkg.
  now rewrite (processPackage_elsewhere pg _ pkg first).
Qed.

Lemma run_done pg st W c :
  persisted W c st -> length W <= c ->
  run pg st =
    (Returned, delete INDEX_KEY (delete PACKAGES_KEY st),
     [Alert "All packages processed!"; RemoveItem PACKAGES_KEY; RemoveItem INDEX_KEY]).
Proof.
  intros Hp Hc. unfold run, runOf. rewrite (main_persisted pg W c) by exact Hp.
  destruct (Nat.leb_spec (length W) c); [reflexivity | lia].
Qed.

Lemma run_item pg st W c pkg :
  persisted W c st -> W !! c = Some pkg ->
  run pg st = runOf (processPackage pg (Int (Z.of_nat c)) pkg) st.
Proof.
  intros Hp Hpkg. unfold run, runOf. rewrite (main_persisted pg W c) by exact Hp.
  pose proof (lookup_lt_Some _ _ _ Hpkg) as Hlt.
  destruct (Nat.leb_spec (length W) c); [lia |]. now rewrite Hpkg.
Qed.

Lemma main_invocation pg W c w :
  persisted W c (storage w) ->
  exists comp ch es,
    invocation pg W c comp ch es
    /\ main pg w = (comp, World (applyChange c ch (storage w)) (rev es ++ events w)).
Proof.
  intros Hp. rewrite (main_persisted pg W c) by exact Hp.
  destruct (Nat.leb_spec (length W) c) as [Hc | Hc].
  { exists Returned, Clear. eexists. split; [now apply WalkDone | reflexivity]. }
  destruct (lookup_lt_is_Some' W c Hc) as [pkg Hpkg]. rewrite Hpkg.
  destruct (charAt0 pkg) as [first |] eqn:Hfirst.
  2:{ exists (Thrown TypeError), Keep, []. split; [now apply (NoFirstLetter _ _ _ pkg) |].
      unfold processPackage. rewrite Hfirst. now destruct w. }
  destruct (startsWith (pathname pg) (expectedPathOf (toLowerCase first))) eqn:Hpath.
  2:{ exists Returned, Keep. eexists.
      split; [now apply (Navigating _ _ _ pkg first) |].
      now rewrite (processPackage_elsewhere pg _ pkg first). }
  assert (inFolderOf pg pkg = true) as Hin by (unfold inFolderOf; now rewrite Hfirst).
  destruct (RegExp.compile (patternSource pkg)) as [re | |] eqn:Hre.
  - rewrite (processPackage_here pg _ pkg re) by assumption.
    destruct (List.filter (isMatch re) (anchors pg)) as [| h rest] eqn:Hlinks.
    + exists Returned, Advance. eexists.
      split; [now apply (NotFound _ _ _ pkg re) | reflexivity].
    + exists (Normal tt), Advance. eexists.
      split; [now apply (Fetching _ _ _ pkg re h rest) | reflexivity].
  - exists (Thrown RegExpSyntaxError), Keep, [].
    split; [now apply (BadPattern _ _ _ pkg) |].
    rewrite processPackage_bad_pattern by assumption. now destruct w.
  - exists Unmodelled, Keep, [].
    split; [now apply (PatternNotCovered _ _ _ pkg) |].
    unfold processPackage. rewrite Hfirst. cbv zeta. rewrite Hpath. cbn [negb].
    unfold newRegExp. rewrite Hre. step. now destruct w.
Qed.

Lemma run_invocation pg W c st :
  persisted W c st ->
  exists comp ch es,
    invocation pg W c comp ch es /\ run pg st = (comp, applyChange c ch st, es).
Proof.
  intros Hp.
  destruct (main_invocation pg W c (World st [])) as (comp & ch & es & Hinv & Hmain);
    [exact Hp |].
  exists comp, ch, es. split; [exact Hinv |].
  unfold run, runOf. rewrite Hmain. cbn [storage events].
  now rewrite app_nil_r, rev_involutive.
Qed.

(** What one invocation can do to a stored walk. *)
Lemma run_storage_cases pg st W c :
  persisted W c st ->
  storageOf (run pg st) = st
  \/ (c < length W /\ storageOf (run pg st) = <[INDEX_KEY := toString (Z.of_nat c + 1)]> st)
  \/ (length W <= c /\ storageOf (run pg st) = delete INDEX_KEY (delete PACKAGES_KEY st)).
Proof.
  intros Hp.
  destruct (run_invocation pg W c st Hp) as (comp & ch & es & Hinv & ->).
  unfold storageOf; cbn [fst snd].
  inversion Hinv; subst; cbn [applyChange]; auto;
    right; left; (split; [eapply lookup_lt_Some; eassumption | reflexivity]).
Qed.

(** C1.  With the list [W] and the cursor [c] stored, an invocation with
    [c < length W] takes [W[c]] and goes on to process it; with
    [c >= length W] it ends the walk instead: the completion alert, both
    entries removed, and [main] returns. *)
Theorem current_item_or_done pg st W c :
  persisted W c st ->
  (c < length W ->
   exists pkg, W !! c = Some pkg
     /\ run pg st = runOf (processPackage pg (Int (Z.of_nat c)) pkg) st)
  /\ (length W <= c ->
      run pg st =
        (Returned, delete INDEX_KEY (delete PACKAGES_KEY st),
         [Alert "All packages processed!"; RemoveItem PACKAGES_KEY; RemoveItem INDEX_KEY])).
Proof.
  intros Hp. split; intros Hc.
  - destruct (lookup_lt_is_Some' W c Hc) as [pkg Hpkg].
    exists pkg. split; [exact Hpkg | now apply (run_item pg st W c)].
  - now apply (run_done pg st W c).
Qed.

Lemma current_item_or_done_witness :
  persisted ["nano"; "vim"] 1 (stored ["nano"; "vim"] 1)
  /\ exists pkg, ["nano"; "vim"] !! 1 = Some pkg
       /\ run pgA (stored ["nano"; "vim"] 1)
          = runOf (processPackage pgA (Int 1) pkg) (stored ["nano"; "vim"] 1).
Proof.
  split; [split; vm_compute; reflexivity |].
  refine (proj1 (current_item_or_done pgA _ ["nano"; "vim"] 1 _) _);
    [split; vm_compute; reflexivity | simpl; lia].
Defined.

Lemma filter_first {A} (f : A -> bool) before x after :
  Forall (fun a => f a = false) before -> f x = true ->
  List.filter f (before ++ x :: after) = x :: List.filter f after.
Proof.
  intros Hb Hx. induction Hb as [| a before Ha _ IH]; cbn [List.filter app].
  - now rewrite Hx.
  - now rewrite Ha.
Qed.

(** C2.  When the item at the cursor [c] is processed (the page is its
    folder and the pattern compiles), the stored cursor is [c + 1] right
    after, whether a file was found or not.  No invocation moves the cursor
    back: it stays, moves to [c + 1], or is removed when the walk is
    complete. *)
Theorem cursor_moves_forward pg st W c :
  persisted W c st ->
  (forall pkg re,
      W !! c = Some pkg ->
      inFolderOf pg pkg = true ->
      RegExp.compile (patternSource pkg) = RegExp.Pattern re ->
      storageOf (run pg st) = <[INDEX_KEY := toString (Z.of_nat c + 1)]> st
      /\ cursorOf (storageOf (run pg st)) = Int (Z.of_nat c + 1)
      /\ persisted W (S c) (storageOf (run pg st)))
  /\ (cursorOf (storageOf (run pg st)) = Int (Z.of_nat c)
      \/ cursorOf (storageOf (run pg st)) = Int (Z.of_nat c + 1)
      \/ (length W <= c /\ storageOf (run pg st) !! INDEX_KEY = None)).
Proof.
  intros Hp. split.
  - intros pkg re Hpkg Hin Hre.
    assert (storageOf (run pg st) = <[INDEX_KEY := toString (Z.of_nat c + 1)]> st) as ->.
    { rewrite (run_here pg st W c pkg re) by assumption.
      destruct (List.filter (isMatch re) (anchors pg)); reflexivity. }
    pose proof (persisted_advance W c st Hp) as Hp'.
    repeat split; try apply Hp'.
    rewrite (cursorOf_persisted W (S c)) by exact Hp'. f_equal. lia.
  - destruct (run_storage_cases pg st W c Hp) as [-> | [[_ ->] | [Hc ->]]].
    + left. now apply (cursorOf_persisted W).
    + right; left. pose proof (persisted_advance W c st Hp) as Hp'.
      rewrite (cursorOf_persisted W (S c)) by exact Hp'. f_equal. lia.
    + right; right. split; [exact Hc | apply lookup_delete_eq].
Qed.

Lemma cursor_moves_forward_witness :
  persisted ["nano"; "vim"] 0 (stored ["nano"; "vim"] 0)
  /\ cursorOf (storageOf (run pgA (stored ["nano"; "vim"] 0))) = Int 1
  /\ cursorOf (storageOf (run pgV (stored ["nano"; "vim"] 1))) = Int 2.
Proof.
  split; [split; vm_compute; reflexivity |]. split.
  - refine (proj1 (proj2 (proj1 (cursor_moves_forward pgA _ ["nano"; "vim"] 0 _) "nano" _ _ _ _)));
      [split; vm_compute; reflexivity | reflexivity | reflexivity | vm_compute; reflexivity].
  - refine (proj1 (proj2 (proj1 (cursor_moves_forward pgV _ ["nano"; "vim"] 1 _) "vim" _ _ _ _)));
      [split; vm_compute; reflexivity | reflexivity | reflexivity | vm_compute; reflexivity].
Defined.

(** C3 (as amended).  When the item at the cursor is processed, the
    invocation ends in exactly one reload.  After a download the reload is
    preceded by a single pause of 3000 ms; when no file was found the
    reload follows at once, with no pause. *)
Theorem pause_only_after_download pg st W c pkg re :
  persisted W c st ->
  W !! c = Some pkg ->
  inFolderOf pg pkg = true ->
  RegExp.compile (patternSource pkg) = RegExp.Pattern re ->
  pausesBeforeReload [] (traceOf (run pg st)) =
    match List.filter (isMatch re) (anchors pg) with
    | [] => [[]]
    | _ :: _ => [[3000%Z]]
    end.
Proof.
  intros Hp Hpkg Hin Hre.
  rewrite (run_here pg st W c pkg re) by assumption.
  destruct (List.filter (isMatch re) (anchors pg)); reflexivity.
Qed.

Lemma pause_only_after_download_witness :
  persisted ["nano"; "vim"] 0 (stored ["nano"; "vim"] 0)
  /\ pausesBeforeReload [] (traceOf (run pgA (stored ["nano"; "vim"] 0))) = [[3000%Z]].
Proof.
  split; [split; vm_compute; reflexivity |].
  etransitivity.
  - refine (pause_only_after_download pgA _ ["nano"; "vim"] 0 "nano" _ _ _ _ _);
      [split; vm_compute; reflexivity | reflexivity | reflexivity | vm_compute; reflexivity].
  - vm_compute; reflexivity.
Defined.

(** C3, as stated, fails: for [vim] in a folder with no file for it the
    invocation ends in a reload (a restart) that no pause precedes. *)
Lemma restart_without_pause :
  run pgV (stored ["nano"; "vim"] 1) =
    (Returned, stored ["nano"; "vim"] 2,
     [ConsoleWarn ("No RPM found for package " +:+ quoted "vim");
      SetItem INDEX_KEY "2"; Reload])
  /\ pausesBeforeReload [] (traceOf (run pgV (stored ["nano"; "vim"] 1))) = [[]].
Proof. split; vm_compute; reflexivity. Qed.

(** C5.  When several anchors match, the one downloaded is the first in
    document order, and the download is triggered exactly once; a run on
    any page with the same location and the same listing does the same. *)
Theorem first_match_downloaded_once pg st W c pkg re before h after :
  persisted W c st ->
  W !! c = Some pkg ->
  inFolderOf pg pkg = true ->
  RegExp.compile (patternSource pkg) = RegExp.Pattern re ->
  anchors pg = (before ++ Some h :: after)%list ->
  Forall (fun a => isMatch re a = false) before ->
  isMatch re (Some h) = true ->
  downloads (traceOf (run pg st)) = [href pg +:+ h]
  /\ forall pg',
      pathname pg' = pathname pg -> href pg' = href pg -> anchors pg' = anchors pg ->
      run pg' st = run pg st.
Proof.
  intros Hp Hpkg Hin Hre Hanchors Hbefore Hh. split.
  - rewrite (run_here pg st W c pkg re) by assumption.
    rewrite Hanchors, filter_first by assumption. reflexivity.
  - intros pg' Hpath Hhref Hlist.
    assert (inFolderOf pg' pkg = true) as Hin'
      by (unfold inFolderOf in *; now rewrite Hpath).
    rewrite (run_here pg st W c pkg re), (run_here pg' st W c pkg re) by assumption.
    now rewrite Hhref, Hlist.
Qed.

Lemma first_match_downloaded_once_witness :
  persisted ["nano"; "vim"] 0 (stored ["nano"; "vim"] 0)
  /\ downloads (traceOf (run pgA (stored ["nano"; "vim"] 0)))
     = [href pgA +:+ "nano-6.2-1.el9.x86_64.rpm"].
Proof.
  split; [split; vm_compute; reflexivity |].
  refine (proj1 (first_match_downloaded_once pgA _ ["nano"; "vim"] 0 "nano" _
                   [Some "../"; None] "nano-6.2-1.el9.x86_64.rpm"
                   [Some "nano-doc-6.2-1.el9.rpm"] _ _ _ _ _ _ _));
    [ split; vm_compute; reflexivity | reflexivity | reflexivity
    | vm_compute; reflexivity | reflexivity
    | repeat constructor | vm_compute; reflexivity ].
Defined.

(** C7.  When the page is not the folder of the current item, the
    invocation logs, navigates to that folder and returns: nothing is
    written to [sessionStorage], which is left as it was, and nothing is
    downloaded. *)
Theorem navigation_keeps_state pg st W c pkg first :
  persisted W c st ->
  W !! c = Some pkg ->
  charAt0 pkg = Some first ->
  startsWith (pathname pg) (expectedPathOf (toLowerCase first)) = false ->
  completionOf (run pg st) = Returned
  /\ storageOf (run pg st) = st
  /\ persisted W c (storageOf (run pg st))
  /\ navigations (traceOf (run pg st))
     = ["https://dl.fedoraproject.org" +:+ expectedPathOf (toLowerCase first)]
  /\ downloads (traceOf (run pg st)) = []
  /\ writes (traceOf (run pg st)) = []
  /\ last (traceOf (run pg st))
     = Some (Navigate ("https://dl.fedoraproject.org" +:+ expectedPathOf (toLowerCase first))).
Proof.
  intros Hp Hpkg Hfirst Hpath.
  rewrite (run_elsewhere pg st W c pkg first) by assumption.
  repeat split; try reflexivity; apply Hp.
Qed.

Lemma navigation_keeps_state_witness :
  persisted ["nano"; "vim"] 1 (stored ["nano"; "vim"] 1)
  /\ storageOf (run pgA (stored ["nano"; "vim"] 1)) = stored ["nano"; "vim"] 1
  /\ navigations (traceOf (run pgA (stored ["nano"; "vim"] 1)))
     = ["https://dl.fedoraproject.org/pub/epel/9/Everything/x86_64/Packages/v/"].
Proof.
  split; [split; vm_compute; reflexivity |].
  assert (persisted ["nano"; "vim"] 1 (stored ["nano"; "vim"] 1)) as Hp
    by (split; vm_compute; reflexivity).
  pose proof (navigation_keeps_state pgA _ ["nano"; "vim"] 1 "vim" "v" Hp
                eq_refl eq_refl eq_refl) as (_ & Hst & _ & Hnav & _).
  split; [exact Hst | exact Hnav].
Defined.

(** ** The first invocation: asking for the list *)

Lemma bind_bind {A B C} (m : M A) (g : A -> M B) (f : B -> M C) w :
  ((m ≫= g) ≫= f) w = (m ≫= (fun x => g x ≫= f)) w.
Proof.
  unfold mbind, M_bind. destruct (m w) as [[a | | e |] w']; reflexivity.
Qed.

Lemma main_fresh pg w :
  truthyOpt (storage w !! PACKAGES_KEY) = false ->
  main pg w =
    match splitPackages (default EmptyString (promptAnswer pg)) with
    | [] =>
        (Returned,
         World (storage w)
           (Alert (refusalText (promptAnswer pg)) :: Prompt promptText :: events w))
    | p :: ps => main pg (startedWorld (p :: ps) w)
    end.
Proof.
  intros Hnone. unfold main at 1.
  step. rewrite Hnone. cbn [negb]. unfold askForPackages, refusalText.
  rewrite bind_bind. step.
  destruct (truthyOpt (promptAnswer pg)) eqn:Hanswer; cbn [negb].
  - destruct (splitPackages (default EmptyString (promptAnswer pg))) as [| p ps] eqn:Hpkgs;
      cbn [length Nat.eqb].
    + rewrite bind_bind. step. now step.
    + rewrite !bind_bind. step. rewrite bind_bind. step. step. step.
      set (pkgs := p :: ps).
      unfold main, startedWorld. step.
      rewrite !(lookup_insert_ne _ INDEX_KEY PACKAGES_KEY) by discriminate.
      rewrite !lookup_insert_eq.
      cbn [truthyOpt]. rewrite truthy_JSON_stringify. cbn [negb].
      step. step.
      rewrite !(lookup_insert_ne _ INDEX_KEY PACKAGES_KEY) by discriminate.
      now rewrite !lookup_insert_eq.
  - assert (promptAnswer pg = None \/ promptAnswer pg = Some EmptyString) as Hcases.
    { destruct (promptAnswer pg) as [[| ? ?] |]; try discriminate; auto. }
    assert (splitPackages (default EmptyString (promptAnswer pg)) = []) as ->.
    { destruct Hcases as [-> | ->]; reflexivity. }
    rewrite bind_bind. step. now step.
Qed.

(** Splitting and joining *)
Lemma join_cons_char sep c t ts :
  join sep (String c t :: ts) = String c (join sep (t :: ts)).
Proof. destruct ts; reflexivity. Qed.

Lemma split_nonempty sep s : split sep s <> [].
Proof.
  destruct s as [| c s]; cbn [split]; [discriminate |].
  destruct (Ascii.eqb c sep); [discriminate |].
  destruct (split sep s); discriminate.
Qed.

Lemma join_split sep s : join (String sep EmptyString) (split sep s) = s.
Proof.
  induction s as [| c s IH]; [reflexivity |]. cbn [split].
  destruct (Ascii.eqb_spec c sep) as [-> | Hne].
  - pose proof (split_nonempty sep s) as Hs.
    destruct (split sep s) as [| t ts]; [congruence |].
    cbn [join]. cbn [join] in IH. rewrite IH. reflexivity.
  - pose proof (split_nonempty sep s) as Hs.
    destruct (split sep s) as [| t ts]; [congruence |].
    rewrite join_cons_char. now rewrite IH.
Qed.

Lemma split_pieces sep s : Forall (fun t => occursIn sep t = false) (split sep s).
Proof.
  induction s as [| c s IH]; cbn [split]; [repeat constructor |].
  destruct (Ascii.eqb_spec c sep) as [-> | Hne].
  - constructor; [reflexivity | exact IH].
  - destruct (split sep s) as [| t ts]; [repeat constructor |].
    + cbn [occursIn]. destruct (Ascii.eqb_spec c sep); [congruence | reflexivity].
    + inversion IH as [| ? ? Ht Hts]; subst. constructor; [| exact Hts].
      cbn [occursIn]. destruct (Ascii.eqb_spec c sep); [congruence | exact Ht].
Qed.

Lemma splitPackages_truthy input : Forall (fun p => truthy p = true) (splitPackages input).
Proof.
  unfold splitPackages. apply List.Forall_forall. intros p Hp.
  now apply List.filter_In in Hp.
Qed.

Lemma truthy_charAt0 s : truthy s = true -> is_Some (charAt0 s).
Proof. destruct s; [discriminate | eauto]. Qed.

Lemma persisted_started pkgs w : persisted pkgs 0 (storage (startedWorld pkgs w)).
Proof.
  split; cbn [startedWorld storage].
  - rewrite lookup_insert_ne by discriminate. apply lookup_insert_eq.
  - apply lookup_insert_eq.
Qed.

Lemma applyChange_packages c ch st v :
  st !! PACKAGES_KEY = Some v -> ch <> Clear ->
  applyChange c ch st !! PACKAGES_KEY = Some v.
Proof.
  intros Hv Hch. destruct ch; cbn [applyChange]; [exact Hv | | congruence].
  now rewrite lookup_insert_ne by discriminate.
Qed.

(** The first invocation with a usable answer: the list is stored, the walk
    starts at cursor 0 and goes one step. *)
Lemma run_fresh_started pg st p ps :
  truthyOpt (st !! PACKAGES_KEY) = false ->
  splitPackages (default EmptyString (promptAnswer pg)) = p :: ps ->
  exists comp ch es,
    invocation pg (p :: ps) 0 comp ch es
    /\ run pg st =
         (comp,
          applyChange 0 ch (<[INDEX_KEY := "0"]> (<[PACKAGES_KEY := JSON_stringify (p :: ps)]> st)),
          Prompt promptText :: SetItem PACKAGES_KEY (JSON_stringify (p :: ps))
            :: SetItem INDEX_KEY "0" :: Alert (startText (p :: ps)) :: es).
Proof.
  intros Hnone Hpkgs. unfold run, runOf.
  rewrite main_fresh by exact Hnone. rewrite Hpkgs.
  destruct (main_invocation pg (p :: ps) 0 (startedWorld (p :: ps) (World st [])))
    as (comp & ch & es & Hinv & ->); [apply persisted_started |].
  exists comp, ch, es. split; [exact Hinv |].
  cbn [startedWorld storage events]. rewrite rev_app_distr, rev_involutive. reflexivity.
Qed.

Lemma run_fresh_refused pg st :
  truthyOpt (st !! PACKAGES_KEY) = false ->
  splitPackages (default EmptyString (promptAnswer pg)) = [] ->
  run pg st = (Returned, st, [Prompt promptText; Alert (refusalText (promptAnswer pg))]).
Proof.
  intros Hnone Hpkgs. unfold run, runOf.
  rewrite main_fresh by exact Hnone. now rewrite Hpkgs.
Qed.

(** C6.  With no list stored, the answer to the prompt is cut at the
    commas, each piece is trimmed, and the empty ones are dropped.  When
    nothing is left (also for a cancelled or empty answer), the run shows
    one alert and returns, with [sessionStorage] as it was and no entry
    written; otherwise it stores the items and the cursor 0 before
    anything else. *)
Theorem answer_without_items_halts pg st :
  truthyOpt (st !! PACKAGES_KEY) = false ->
  let input := default EmptyString (promptAnswer pg) in
  let items := splitPackages input in
  (exists tokens,
      join "," tokens = input
      /\ Forall (fun t => occursIn "," t = false) tokens
      /\ items = List.filter truthy (map trim tokens))
  /\ (items = [] ->
      run pg st = (Returned, st, [Prompt promptText; Alert (refusalText (promptAnswer pg))])
      /\ length (alerts (traceOf (run pg st))) = 1
      /\ writes (traceOf (run pg st)) = [])
  /\ (items <> [] ->
      exists rest,
        traceOf (run pg st) =
          Prompt promptText :: SetItem PACKAGES_KEY (JSON_stringify items)
            :: SetItem INDEX_KEY "0" :: Alert (startText items) :: rest).
Proof.
  intros Hnone input items. split; [| split].
  - exists (split "," input). split; [apply join_split |]. split; [apply split_pieces | reflexivity].
  - intros Hitems. rewrite run_fresh_refused by assumption. repeat split.
  - intros Hitems. subst items. destruct (splitPackages input) as [| p ps] eqn:Hpkgs; [congruence |].
    destruct (run_fresh_started pg st p ps Hnone Hpkgs) as (comp & ch & es & _ & ->).
    now exists es.
Qed.

Lemma answer_without_items_halts_witness :
  truthyOpt ((∅ : gmap string string) !! PACKAGES_KEY) = false
  /\ run (Page (Some " , ,") "/" "https://dl.fedoraproject.org/" []) ∅
     = (Returned, ∅, [Prompt promptText; Alert "No valid packages entered."]).
Proof.
  split; [reflexivity |].
  refine (proj1 (proj1 (proj2 (answer_without_items_halts
                                (Page (Some " , ,") "/" "https://dl.fedoraproject.org/" [])
                                ∅ _)) _));
    reflexivity.
Defined.

(** C8.  With the cursor at or past the end of the stored list, an
    invocation removes both entries, shows the completion alert and nothing
    else (no navigation, no download, no reload), and returns.  Clearing is
    idempotent: removing the two entries again from the storage it leaves
    changes nothing.  An invocation after that finds no list and asks for
    one; when the answer gives no item the storage stays as cleared. *)
Theorem done_clears_state pg st W c :
  persisted W c st ->
  length W <= c ->
  run pg st =
    (Returned, delete INDEX_KEY (delete PACKAGES_KEY st),
     [Alert "All packages processed!"; RemoveItem PACKAGES_KEY; RemoveItem INDEX_KEY])
  /\ storageOf (run pg st) !! PACKAGES_KEY = None
  /\ storageOf (run pg st) !! INDEX_KEY = None
  /\ alerts (traceOf (run pg st)) = ["All packages processed!"]
  /\ navigations (traceOf (run pg st)) = []
  /\ downloads (traceOf (run pg st)) = []
  /\ delete INDEX_KEY (delete PACKAGES_KEY (storageOf (run pg st))) = storageOf (run pg st)
  /\ (forall pg',
        splitPackages (default EmptyString (promptAnswer pg')) = [] ->
        run pg' (storageOf (run pg st))
        = (Returned, storageOf (run pg st),
           [Prompt promptText; Alert (refusalText (promptAnswer pg'))])).
Proof.
  intros Hp Hc. rewrite (run_done pg st W c) by assumption.
  unfold storageOf, traceOf; cbn [fst snd].
  assert (delete INDEX_KEY (delete PACKAGES_KEY st) !! PACKAGES_KEY = None) as Hgone.
  { rewrite lookup_delete_ne by discriminate. apply lookup_delete_eq. }
  repeat split; try reflexivity.
  - exact Hgone.
  - apply lookup_delete_eq.
  - rewrite (delete_id _ PACKAGES_KEY); [apply delete_delete_eq | exact Hgone].
  - intros pg' Hnone. apply run_fresh_refused; [| exact Hnone]. now rewrite Hgone.
Qed.

Lemma done_clears_state_witness :
  persisted ["nano"; "vim"] 2 (stored ["nano"; "vim"] 2)
  /\ run pgV (stored ["nano"; "vim"] 2) =
      (Returned, delete INDEX_KEY (delete PACKAGES_KEY (stored ["nano"; "vim"] 2)),
       [Alert "All packages processed!"; RemoveItem PACKAGES_KEY; RemoveItem INDEX_KEY]).
Proof.
  split; [split; vm_compute; reflexivity |].
  refine (proj1 (done_clears_state pgV _ ["nano"; "vim"] 2 _ _));
    [split; vm_compute; reflexivity | simpl; lia].
Defined.

(** C10.  A list that the script stored holds no empty string: taking the
    first character of the current item is defined for every cursor in
    range, and no invocation on that list fails with the [TypeError] of
    [pkg[0].toLowerCase()]. *)
Theorem stored_items_have_first_letter pg st W :
  truthyOpt (st !! PACKAGES_KEY) = false ->
  storageOf (run pg st) !! PACKAGES_KEY = Some (JSON_stringify W) ->
  Forall (fun item => is_Some (charAt0 item)) W
  /\ (forall c item, W !! c = Some item -> is_Some (charAt0 item))
  /\ (forall pg' st' c,
        persisted W c st' -> c < length W ->
        completionOf (run pg' st') <> Thrown TypeError).
Proof.
  intros Hnone Hstored.
  assert (Forall (fun item => truthy item = true) W) as Htruthy.
  { destruct (splitPackages (default EmptyString (promptAnswer pg))) as [| p ps] eqn:Hpkgs.
    - rewrite run_fresh_refused in Hstored by assumption.
      unfold storageOf in Hstored; cbn [fst snd] in Hstored.
      rewrite Hstored in Hnone. cbn [truthyOpt] in Hnone.
      now rewrite truthy_JSON_stringify in Hnone.
    - destruct (run_fresh_started pg st p ps Hnone Hpkgs) as (comp & ch & es & Hinv & Hrun).
      rewrite Hrun in Hstored. unfold storageOf in Hstored; cbn [fst snd] in Hstored.
      assert (ch <> Clear) as Hch
        by (inversion Hinv; subst; try discriminate; cbn [length] in *; lia).
      erewrite applyChange_packages in Hstored; [| | exact Hch].
      2:{ rewrite lookup_insert_ne by discriminate. apply lookup_insert_eq. }
      assert (W = p :: ps) as ->.
      { assert (JSON_parse (JSON_stringify (p :: ps)) = JSON_parse (JSON_stringify W))
          as Htext by congruence.
        rewrite !JSON_parse_stringify in Htext. congruence. }
      rewrite <- Hpkgs. apply splitPackages_truthy. }
  assert (forall c item, W !! c = Some item -> is_Some (charAt0 item)) as Hitem.
  { intros c item Hc. apply truthy_charAt0.
    rewrite List.Forall_forall in Htruthy. apply Htruthy.
    apply list_elem_of_In. eapply list_elem_of_lookup_2; eassumption. }
  split; [| split; [exact Hitem |]].
  - eapply List.Forall_impl; [| exact Htruthy]. intros item. apply truthy_charAt0.
  - intros pg' st' c Hp Hc.
    destruct (run_invocation pg' W c st' Hp) as (comp & ch & es & Hinv & ->).
    unfold completionOf; cbn [fst].
    inversion Hinv; subst; try discriminate.
    match goal with
    | Hl : W !! c = Some ?pkg, Hn : charAt0 ?pkg = None |- _ =>
        destruct (Hitem c pkg Hl) as [first Hf]; congruence
    end.
Qed.

Lemma stored_items_have_first_letter_witness :
  truthyOpt ((∅ : gmap string string) !! PACKAGES_KEY) = false
  /\ Forall (fun item => is_Some (charAt0 item)) ["nano"; "vim"].
Proof.
  split; [reflexivity |].
  refine (proj1 (stored_items_have_first_letter
                   (Page (Some "nano, ,vim") "/" "https://dl.fedoraproject.org/" [])
                   ∅ ["nano"; "vim"] _ _));
    [reflexivity | vm_compute; reflexivity].
Defined.

(** ** Across restarts *)

(** X3.  Across restarts the cursor of a stored walk only moves forward,
    one item at a time, and the list stays as it is, until an invocation finds
    the walk complete. *)
Theorem cursor_monotone_across_restarts pgs st W c :
  persisted W c st ->
  (exists c', c <= c' <= c + length pgs /\ persisted W c' (invocations pgs st))
  \/ (exists k c',
        k < length pgs /\ length W <= c' /\ persisted W c' (invocations (take k pgs) st)).
Proof.
  revert st c. induction pgs as [| pg pgs IH]; intros st c Hp.
  { left. exists c. cbn [length]. split; [lia | exact Hp]. }
  assert (forall st1 c1,
            c <= c1 <= S c -> persisted W c1 st1 ->
            (exists c', c <= c' <= c + length (pg :: pgs)
                        /\ persisted W c' (invocations pgs st1))
            \/ (exists k c',
                  k < length pgs /\ length W <= c'
                  /\ persisted W c' (invocations (take k pgs) st1))) as Hnext.
  { intros st1 c1 Hc1 Hp1. destruct (IH st1 c1 Hp1) as [(c' & Hc' & Hp') | Hdone].
    - left. exists c'. cbn [length]. split; [lia | exact Hp'].
    - now right. }
  assert (forall st1,
            (exists k c',
                k < length pgs /\ length W <= c'
                /\ persisted W c' (invocations (take k pgs) st1)) ->
            st1 = storageOf (run pg st) ->
            exists k c',
              k < length (pg :: pgs) /\ length W <= c'
              /\ persisted W c' (invocations (take k (pg :: pgs)) st)) as Hlater.
  { intros st1 (k & c' & Hk & Hc' & Hp') ->. exists (S k), c'. cbn [length].
    split; [lia |]. split; [exact Hc' | exact Hp']. }
  change (invocations (pg :: pgs) st) with (invocations pgs (storageOf (run pg st))).
  destruct (run_storage_cases pg st W c Hp) as [Hst | [[_ Hst] | [Hc Hst]]].
  - destruct (Hnext (storageOf (run pg st)) c) as [Hgo | Hdone];
      [lia | now rewrite Hst | now left | right; eapply Hlater; eauto].
  - destruct (Hnext (storageOf (run pg st)) (S c)) as [Hgo | Hdone];
      [lia | rewrite Hst; now apply persisted_advance | now left
      | right; eapply Hlater; eauto].
  - right. exists 0, c. cbn [length take]. split; [lia |]. split; [exact Hc | exact Hp].
Qed.

Lemma cursor_monotone_across_restarts_witness :
  persisted ["nano"; "vim"] 0 (stored ["nano"; "vim"] 0)
  /\ ((exists c', 0 <= c' <= 0 + 3
                 /\ persisted ["nano"; "vim"] c'
                      (invocations [pgA; pgA; pgV] (stored ["nano"; "vim"] 0)))
      \/ (exists k c',
            k < 3 /\ 2 <= c'
            /\ persisted ["nano"; "vim"] c'
                 (invocations (take k [pgA; pgA; pgV]) (stored ["nano"; "vim"] 0)))).
Proof.
  split; [split; vm_compute; reflexivity |].
  apply (cursor_monotone_across_restarts [pgA; pgA; pgV] _ ["nano"; "vim"] 0).
  split; vm_compute; reflexivity.
Defined.

(** *** Trimming *)
Lemma trimStart_strips s :
  exists l, s = l +:+ trimStart s
            /\ allWhiteSpace l = true
            /\ startsWithWhiteSpace (trimStart s) = false.
Proof.
  induction s as [| c s (l & Hs & Hl & Hstart)].
  - exists EmptyString. repeat split.
  - cbn [trimStart]. destruct (isWhiteSpace c) eqn:Hc.
    + exists (String c l). cbn [allWhiteSpace]. rewrite Hc, Hl.
      change (String c l +:+ trimStart s) with (String c (l +:+ trimStart s)).
      now rewrite <- Hs.
    + exists EmptyString. cbn [startsWithWhiteSpace]. now rewrite Hc.
Qed.

Lemma trimEnd_strips t :
  exists r, t = trimEnd t +:+ r
            /\ allWhiteSpace r = true
            /\ endsWithWhiteSpace (trimEnd t) = false
            /\ startsWithWhiteSpace (trimEnd t) = startsWithWhiteSpace t && truthy (trimEnd t).
Proof.
  induction t as [| c t (r & Ht & Hr & Hend & _)].
  - exists EmptyString. repeat split.
  - cbn [trimEnd]. destruct (isWhiteSpace c && negb (truthy (trimEnd t))) eqn:Hcond.
    + apply andb_prop in Hcond as [Hc Hempty].
      destruct (trimEnd t) as [| ? ?] eqn:Hu; [| discriminate].
      assert (t = r) as -> by exact Ht.
      exists (String c r). cbn [allWhiteSpace startsWithWhiteSpace truthy].
      rewrite Hc, Hr, andb_false_r. now repeat split.
    + exists r. change (String c (trimEnd t) +:+ r) with (String c (trimEnd t +:+ r)).
      rewrite <- Ht. cbn [startsWithWhiteSpace truthy]. rewrite andb_true_r.
      repeat split; [exact Hr |].
      cbn [endsWithWhiteSpace]. destruct (trimEnd t) as [| c' u] eqn:Hu; [| exact Hend].
      cbn [truthy negb] in Hcond. now rewrite andb_true_r in Hcond.
Qed.

(** X4.  [trim] cuts white space, and only white space, from both ends. *)
Theorem trim_strips_both_ends s :
  exists l r,
    s = l +:+ trim s +:+ r
    /\ allWhiteSpace l = true
    /\ allWhiteSpace r = true
    /\ startsWithWhiteSpace (trim s) = false
    /\ endsWithWhiteSpace (trim s) = false.
Proof.
  destruct (trimStart_strips s) as (l & Hs & Hl & Hstart).
  destruct (trimEnd_strips (trimStart s)) as (r & Ht & Hr & Hend & Hfirst).
  exists l, r. unfold trim. rewrite <- Ht, <- Hs.
  repeat split; try assumption.
  rewrite Hfirst, Hstart. reflexivity.
Qed.

(** ** The pattern of [main] *)

Import RegExp.

(** Every code unit is one of the 256. *)
Lemma forall_ascii (P : ascii -> bool) :
  forallb (fun n => P (ascii_of_nat n)) (seq 0 256) = true -> forall c, P c = true.
Proof.
  intros H c. rewrite List.forallb_forall in H.
  rewrite <- (ascii_nat_embedding c). apply H.
  apply List.in_seq. pose proof (nat_ascii_bounded c). lia.
Qed.

Lemma canonicalize_lowerChar a b :
  (canonicalize a =? canonicalize b)%N = Ascii.eqb (lowerChar a) (lowerChar b).
Proof.
  apply eqb_true_iff. revert b. apply (forall_ascii (fun b => Bool.eqb _ _)).
  revert a. apply (forall_ascii (fun a => forallb _ _)).
  vm_compute. reflexivity.
Qed.

Lemma lex_plainChar c r :
  plainChar c = true -> lex Outside (String c r) = consOn (TAtom (Char c)) (lex Outside r).
Proof.
  destruct c as [[] [] [] [] [] [] [] []]; intros H; try discriminate H; reflexivity.
Qed.

Lemma lex_plainName s r :
  plainName s = true ->
  lex Outside (s +:+ r) = prepend (literalTokens s) (lex Outside r).
Proof.
  induction s as [| c s IH]; intros H.
  - change (EmptyString +:+ r) with r. now destruct (lex Outside r).
  - cbn [plainName] in H. apply andb_prop in H as [Hc Hs].
    change (String c s +:+ r) with (String c (s +:+ r)).
    rewrite lex_plainChar, IH by assumption.
    now destruct (lex Outside r).
Qed.

Lemma assemble_literals s ts :
  match ts with t :: _ => isQuantifierToken t = false | [] => True end ->
  assemble (literalTokens s ++ ts) = prepend (literalTerms s) (assemble ts).
Proof.
  intros Hts. induction s as [| c s IH].
  - cbn [literalTokens literalTerms app]. now destruct (assemble ts).
  - cbn [literalTokens literalTerms app].
    assert (assemble (TAtom (Char c) :: literalTokens s ++ ts)
            = consOn (Atom (Char c) Once) (assemble (literalTokens s ++ ts))) as ->.
    { destruct s as [| c' s]; [| reflexivity].
      cbn [literalTokens app]. destruct ts as [| [] ts]; try discriminate Hts; reflexivity. }
    rewrite IH. now destruct (assemble ts).
Qed.

Lemma compile_plainName pkg :
  plainName pkg = true ->
  compile (patternSource pkg) = Pattern (nameTerms pkg).
Proof.
  intros Hplain. unfold compile, patternSource.
  change ("^" +:+ pkg +:+ "[-].*\.rpm$") with (String "^" (pkg +:+ "[-].*\.rpm$")).
  change (lex Outside (String "^" ?r)) with (consOn TCaret (lex Outside r)).
  rewrite lex_plainName by exact Hplain.
  change (lex Outside "[-].*\.rpm$") with
    (Pattern [TAtom (Class false ["-"%char]); TAtom Dot; TStar; TAtom (Char ".");
              TAtom (Char "r"); TAtom (Char "p"); TAtom (Char "m"); TDollar]).
  cbn [prepend consOn]. cbn [assemble].
  rewrite assemble_literals by reflexivity. reflexivity.
Qed.

(** Unfolding [matchHere] one term at a time. *)
Lemma matchHere_once a ts b s :
  matchHere (Atom a Once :: ts) b s
  = match s with
    | String c s' => atomMatches a c && matchHere ts false s'
    | EmptyString => false
    end.
Proof. reflexivity. Qed.

Lemma matchHere_star a ts b s :
  matchHere (Atom a Star :: ts) b s
  = match s with
    | String c s' => atomMatches a c && matchHere (Atom a Star :: ts) false s'
    | EmptyString => false
    end || matchHere ts b s.
Proof. destruct s; reflexivity. Qed.

Lemma search_anchored_later ts s : search (AssertStart :: ts) false s = false.
Proof. induction s as [| c s IH]; [reflexivity |]. cbn [search matchHere andb orb]. exact IH. Qed.

Lemma test_anchored ts s : test (AssertStart :: ts) s = matchHere ts true s.
Proof.
  unfold test. destruct s as [| c s]; cbn [search matchHere andb].
  - apply orb_false_r.
  - rewrite search_anchored_later. apply orb_false_r.
Qed.

Lemma matchHere_literals p rest b s :
  (forall b1 b2 s', matchHere rest b1 s' = matchHere rest b2 s') ->
  matchHere (literalTerms p ++ rest) b s
  = match afterName p s with
    | Some s' => matchHere rest b s'
    | None => false
    end.
Proof.
  intros Hrest. revert b s. induction p as [| a p IH]; intros b s; [reflexivity |].
  cbn [literalTerms app afterName]. rewrite matchHere_once.
  destruct s as [| c s]; [reflexivity |].
  cbn [atomMatches]. rewrite canonicalize_lowerChar.
  destruct (Ascii.eqb (lowerChar a) (lowerChar c)); [| reflexivity].
  cbn [andb]. rewrite IH. destruct (afterName p s); [apply Hrest | reflexivity].
Qed.

Lemma matchHere_dotRpm b s :
  matchHere dotRpmAtEnd b s = String.eqb (toLowerCase s) ".rpm".
Proof.
  unfold dotRpmAtEnd.
  destruct s as [| c1 [| c2 [| c3 [| c4 [| c5 s]]]]];
    repeat (rewrite matchHere_once; cbn [atomMatches]; rewrite canonicalize_lowerChar);
    cbn [toLowerCase String.eqb matchHere truthy negb andb];
    rewrite ?andb_true_r, ?andb_false_r;
    repeat match goal with
           | |- context [Ascii.eqb (lowerChar ?a) (lowerChar ?x)] =>
               is_var x; rewrite (Ascii.eqb_sym (lowerChar a) (lowerChar x));
               change (lowerChar a) with a
           end;
    try reflexivity.
  all: repeat match goal with
              | |- context [Ascii.eqb ?x ?y] => destruct (Ascii.eqb x y); cbn [andb]
              end; reflexivity.
Qed.

Lemma matchHere_dotStar b s :
  hasLineTerminator s = false ->
  matchHere (Atom Dot Star :: dotRpmAtEnd) b s = endsWith (toLowerCase s) ".rpm".
Proof.
  revert b. induction s as [| c s IH]; intros b Hlt.
  - reflexivity.
  - cbn [hasLineTerminator] in Hlt. apply orb_false_elim in Hlt as [Hc Hs].
    rewrite matchHere_star, matchHere_dotRpm. cbn [atomMatches].
    rewrite Hc, IH by exact Hs. cbn [negb andb toLowerCase endsWith].
    apply orb_comm.
Qed.

Lemma matchHere_dashThenRpm b s :
  hasLineTerminator s = false ->
  matchHere (Atom (Class false ["-"%char]) Once :: Atom Dot Star :: dotRpmAtEnd) b s
  = dashThenRpm s.
Proof.
  intros Hlt. rewrite matchHere_once. destruct s as [| c s]; [reflexivity |].
  cbn [hasLineTerminator] in Hlt. apply orb_false_elim in Hlt as [_ Hs].
  rewrite matchHere_dotStar by exact Hs.
  cbn [atomMatches existsb xorb dashThenRpm].
  rewrite canonicalize_lowerChar, orb_false_r. reflexivity.
Qed.

Lemma afterName_hasLineTerminator p s s' :
  afterName p s = Some s' -> hasLineTerminator s = false -> hasLineTerminator s' = false.
Proof.
  revert s. induction p as [| a p IH]; intros s; cbn [afterName].
  - now intros [= ->].
  - destruct s as [| c s]; [discriminate |].
    destruct (Ascii.eqb (lowerChar a) (lowerChar c)); [| discriminate].
    intros Hs Hlt. cbn [hasLineTerminator] in Hlt.
    apply orb_false_elim in Hlt as [_ Hlt]. now apply (IH s).
Qed.

Lemma test_nameTerms pkg href :
  hasLineTerminator href = false ->
  test (nameTerms pkg) href
  = match afterName pkg href with
    | Some s' => dashThenRpm s'
    | None => false
    end.
Proof.
  intros Hlt. unfold nameTerms. rewrite test_anchored.
  rewrite matchHere_literals by (intros; now rewrite !matchHere_once).
  destruct (afterName pkg href) as [s' |] eqn:Hafter; [| reflexivity].
  apply matchHere_dashThenRpm. eapply afterName_hasLineTerminator; eassumption.
Qed.

(** The same on the side of the specification. *)
Lemma toLowerCase_append a b : toLowerCase (a +:+ b) = toLowerCase a +:+ toLowerCase b.
Proof.
  induction a as [| c a IH]; [reflexivity |].
  change (String c a +:+ b) with (String c (a +:+ b)).
  cbn [toLowerCase]. now rewrite IH.
Qed.

Lemma startsWith_dash_occurs s q :
  startsWith s (q +:+ "-") = true -> occursIn "-" s = true.
Proof.
  revert s. induction q as [| a q IH]; intros [| c s].
  - discriminate.
  - change (EmptyString +:+ "-") with "-". cbn [startsWith occursIn].
    rewrite andb_true_r. intros H. rewrite Ascii.eqb_sym. now rewrite H.
  - discriminate.
  - change (String a q +:+ "-") with (String a (q +:+ "-")). cbn [startsWith occursIn].
    intros [_ H]%andb_prop. rewrite (IH s H). apply orb_true_r.
Qed.

Lemma matchesName_afterName pkg href :
  Spec.matchesName pkg href
  = match afterName pkg href with
    | Some s' => dashThenRpm s'
    | None => false
    end.
Proof.
  unfold Spec.matchesName. rewrite toLowerCase_append.
  change (toLowerCase "-") with "-".
  revert href. induction pkg as [| a p IH]; intros [| c s]; try reflexivity.
  - change (toLowerCase EmptyString +:+ "-") with "-".
    cbn [afterName dashThenRpm toLowerCase startsWith endsWith].
    rewrite andb_true_r.
    destruct (Ascii.eqb_spec "-"%char (lowerChar c)) as [<- | Hne]; reflexivity.
  - change (toLowerCase (String a p) +:+ "-")
      with (String (lowerChar a) (toLowerCase p +:+ "-")).
    cbn [afterName toLowerCase startsWith endsWith].
    destruct (Ascii.eqb (lowerChar a) (lowerChar c)); [| reflexivity].
    cbn [andb]. rewrite <- IH.
    destruct (startsWith (toLowerCase s) (toLowerCase p +:+ "-")) eqn:Hstart; [| reflexivity].
    cbn [andb].
    destruct (String.eqb_spec (String (lowerChar c) (toLowerCase s)) ".rpm") as [Heq | Hne];
      [| reflexivity].
    injection Heq as _ Hs. apply startsWith_dash_occurs in Hstart.
    rewrite Hs in Hstart. discriminate Hstart.
Qed.

(** X1.  For a name that holds no pattern syntax, and a file name with no
    line terminator in it, the pattern of [main] compiles and matches exactly
    as the specification says: the file name starts with the name and a
    [-], and ends in [.rpm], letter case apart. *)
Theorem plain_name_matches_as_specified pkg href :
  plainName pkg = true ->
  hasLineTerminator href = false ->
  exists re,
    compile (patternSource pkg) = Pattern re
    /\ isMatch re (Some href) = Spec.matchesName pkg href.
Proof.
  intros Hplain Hlt. exists (nameTerms pkg). split; [now apply compile_plainName |].
  cbn [isMatch]. rewrite test_nameTerms by exact Hlt.
  rewrite matchesName_afterName.
  destruct href as [| c s]; [| reflexivity].
  now destruct pkg.
Qed.

Lemma plain_name_matches_as_specified_witness :
  plainName "nano" = true
  /\ hasLineTerminator "nano-doc-6.2-1.el9.rpm" = false
  /\ exists re,
       compile (patternSource "nano") = Pattern re
       /\ isMatch re (Some "nano-doc-6.2-1.el9.rpm")
          = Spec.matchesName "nano" "nano-doc-6.2-1.el9.rpm".
Proof.
  split; [reflexivity |]. split; [reflexivity |].
  apply (plain_name_matches_as_specified "nano" "nano-doc-6.2-1.el9.rpm"); reflexivity.
Defined.

(** C4.  The claim fails on names that hold pattern syntax, because line
    64 puts the name into the pattern source as it is.  For [gcc-c++] the
    listing holds a file that starts with the name and a [-] and ends in
    [.rpm], yet [new RegExp] throws and the run stops with the cursor
    where it was.  For [gtk+] the file of that name is not matched.  For
    [python3.11] a file is matched that does not start with the name. *)
Theorem name_is_read_as_pattern_source :
  (Spec.matchesName "gcc-c++" "gcc-c++-11.5.0-5.el9.x86_64.rpm" = true
   /\ compile (patternSource "gcc-c++") = SyntaxError
   /\ run pgG (stored ["gcc-c++"] 0)
      = (Thrown RegExpSyntaxError, stored ["gcc-c++"] 0, []))
  /\ (Spec.matchesName "gtk+" "gtk+-1.2.10-1.el9.x86_64.rpm" = true
      /\ exists re,
           compile (patternSource "gtk+") = Pattern re
           /\ isMatch re (Some "gtk+-1.2.10-1.el9.x86_64.rpm") = false)
  /\ (Spec.matchesName "python3.11" "python3-11-3.11.9-1.el9.x86_64.rpm" = false
      /\ exists re,
           compile (patternSource "python3.11") = Pattern re
           /\ isMatch re (Some "python3-11-3.11.9-1.el9.x86_64.rpm") = true).
Proof.
  split; [| split].
  - repeat split; vm_compute; reflexivity.
  - split; [vm_compute; reflexivity |].
    eexists. split; [vm_compute; reflexivity |]. vm_compute; reflexivity.
  - split; [vm_compute; reflexivity |].
    eexists. split; [vm_compute; reflexivity |]. vm_compute; reflexivity.
Qed.

(** ** The table as CSV *)

Import EpoList.

Lemma find_app' {A} (p : A -> bool) l1 l2 :
  List.find p (l1 ++ l2)%list
  = match List.find p l1 with Some x => Some x | None => List.find p l2 end.
Proof.
  induction l1 as [| a l1 IH]; cbn [List.find app]; [reflexivity |].
  now destruct (p a).
Qed.

Lemma foldl_insert_lookup (es : list (string * string)) (m : gmap string string) k :
  foldl (fun obj kv => <[kv.1 := kv.2]> obj) m es !! k
  = match under es k with Some v => Some v | None => m !! k end.
Proof.
  revert m. induction es as [| e es IH]; intros m; [reflexivity |].
  cbn [foldl]. rewrite IH. unfold under. cbn [rev].
  rewrite find_app'.
  destruct (List.find (fun kv => String.eqb kv.1 k) (rev es)) as [kv |]; [reflexivity |].
  cbn [List.find fmap option_fmap option_map].
  destruct (String.eqb_spec e.1 k) as [<- | Hne].
  - cbn. apply lookup_insert_eq.
  - cbn. now apply lookup_insert_ne.
Qed.

Lemma fromEntries_lookup es k : fromEntries es !! k = under es k.
Proof.
  unfold fromEntries. rewrite foldl_insert_lookup, lookup_empty.
  now destruct (under es k).
Qed.

Lemma under_Some_In es k v : under es k = Some v -> In (k, v) es.
Proof.
  unfold under. destruct (List.find _ (rev es)) as [[k' v'] |] eqn:Hfind; [| discriminate].
  cbn. intros [= <-]. apply List.find_some in Hfind as [Hin Hk].
  apply String.eqb_eq in Hk. cbn in Hk. subst k'. now apply List.in_rev.
Qed.

Lemma hasValue_fromEntries es : hasValue (fromEntries es) = showsValue es.
Proof.
  unfold hasValue, showsValue. apply eq_true_iff_eq.
  rewrite !List.existsb_exists. split.
  - intros (v & Hin & Hv). apply List.in_map_iff in Hin as ([k v'] & <- & Hin).
    apply list_elem_of_In, elem_of_map_to_list in Hin. cbn [snd] in Hv.
    rewrite fromEntries_lookup in Hin.
    exists (k, v'). split; [now apply under_Some_In |]. cbn [fst]. now rewrite Hin.
  - intros ([k v0] & Hin & Hv). cbn [fst] in Hv.
    destruct (under es k) as [v |] eqn:Hu; [| discriminate].
    exists v. split; [| exact Hv].
    apply List.in_map_iff. exists (k, v). split; [reflexivity |].
    apply list_elem_of_In, elem_of_map_to_list. now rewrite fromEntries_lookup.
Qed.

Lemma cellText_fromEntries proto es h :
  cellText proto (fromEntries es) h = printed proto es h.
Proof.
  unfold cellText, printed. rewrite fromEntries_lookup.
  destruct (under es h) as [[| c v] |]; [reflexivity | reflexivity |].
  now destruct (proto h).
Qed.

Lemma filter_map_comm {A B} (f : A -> B) (p : B -> bool) l :
  List.filter p (map f l) = map f (List.filter (fun x => p (f x)) l).
Proof.
  induction l as [| a l IH]; [reflexivity |]. cbn [map List.filter].
  destruct (p (f a)); cbn [map]; now rewrite IH.
Qed.

Lemma csvText_by_columns proto headers rows :
  csvText proto headers rows
  = join newline
      (join "," headers
       :: map (fun row => join "," (map (printed proto (columns headers row)) headers))
            (List.filter (fun row => showsValue (columns headers row)) rows)).
Proof.
  unfold csvText. do 2 f_equal.
  rewrite filter_map_comm, List.map_map.
  unfold rowObject. fold (columns headers).
  erewrite List.filter_ext; [| intros row; apply hasValue_fromEntries].
  apply List.map_ext. intros row. f_equal.
  apply List.map_ext. intros h. apply cellText_fromEntries.
Qed.

Lemma showsValue_true cols :
  showsValue cols = true <-> exists k v, under cols k = Some v /\ v <> EmptyString.
Proof.
  unfold showsValue. rewrite List.existsb_exists. split.
  - intros ([k v0] & _ & Hv). cbn [fst] in Hv.
    destruct (under cols k) as [v |] eqn:Hk; [| discriminate].
    exists k, v. split; [exact Hk |]. intros ->. discriminate.
  - intros (k & v & Hk & Hv). exists (k, v). split; [now apply under_Some_In |].
    cbn [fst]. rewrite Hk. now destruct v.
Qed.

(** On a regular table the columns of a row are its cells, each under its
    own header. *)
Lemma columns_zip (headers : list string) (cells : list string) :
  length cells <= length headers ->
  imap (fun i cell => (headerKey headers i, cell)) cells
  = zip (take (length cells) headers) cells.
Proof.
  revert headers. induction cells as [| c cells IH]; intros headers Hlen; [reflexivity |].
  destruct headers as [| h headers]; cbn [length] in Hlen; [lia |].
  cbn [imap take zip zip_with length]. f_equal.
  rewrite <- IH by lia. apply imap_ext. reflexivity.
Qed.

Lemma under_zip (hs cs : list string) i h c :
  NoDup hs -> length hs = length cs ->
  hs !! i = Some h -> cs !! i = Some c ->
  under (zip hs cs) h = Some c.
Proof.
  intros Hnd Hlen Hh Hc. unfold under.
  destruct (List.find (fun kv => String.eqb kv.1 h) (rev (zip hs cs))) as [[k v] |] eqn:Hfind.
  - apply List.find_some in Hfind as [Hin Hk]. cbn [fst] in Hk.
    apply String.eqb_eq in Hk. subst k.
    apply List.in_rev, list_elem_of_In, list_elem_of_lookup in Hin as [j Hj].
    apply lookup_zip_with_Some in Hj as (h' & v' & [= <- <-] & Hh' & Hv').
    assert (i = j) as -> by (eapply NoDup_lookup; eassumption).
    cbn. congruence.
  - assert (In (h, c) (rev (zip hs cs))) as Hin.
    { apply List.in_rev. rewrite rev_involutive.
      apply list_elem_of_In, list_elem_of_lookup. exists i.
      apply lookup_zip_with_Some. eauto. }
    pose proof (List.find_none _ _ Hfind (h, c) Hin) as Hk.
    cbn [fst] in Hk. now rewrite String.eqb_refl in Hk.
Qed.

Lemma printed_regular proto (hs cs : list string) :
  NoDup hs -> length hs = length cs ->
  map (printed proto (zip hs cs)) hs = cs.
Proof.
  intros Hnd Hlen. apply list_eq. intros i. rewrite list_lookup_fmap.
  destruct (hs !! i) as [h |] eqn:Hh; cbn.
  - destruct (lookup_lt_is_Some_2 cs i) as [c Hc];
      [rewrite <- Hlen; eapply lookup_lt_Some; eassumption |].
    rewrite Hc. unfold printed. now rewrite (under_zip hs cs i h c).
  - symmetry. apply lookup_ge_None. rewrite <- Hlen. now apply lookup_ge_None.
Qed.

Lemma showsValue_regular (hs cs : list string) :
  NoDup hs -> length hs = length cs ->
  showsValue (zip hs cs) = existsb truthy cs.
Proof.
  intros Hnd Hlen. unfold showsValue. apply eq_true_iff_eq.
  rewrite !List.existsb_exists. split.
  - intros ([h c] & Hin & Hv). cbn [fst] in Hv.
    apply list_elem_of_In, list_elem_of_lookup in Hin as [i Hi].
    apply lookup_zip_with_Some in Hi as (h' & c' & [= <- <-] & Hh & Hc).
    rewrite (under_zip hs cs i h c) in Hv by assumption.
    exists c. split; [| exact Hv]. apply list_elem_of_In. eapply list_elem_of_lookup_2; eassumption.
  - intros (c & Hin & Hv).
    apply list_elem_of_In, list_elem_of_lookup in Hin as [i Hc].
    destruct (lookup_lt_is_Some_2 hs i) as [h Hh];
      [rewrite Hlen; eapply lookup_lt_Some; eassumption |].
    exists (h, c). split.
    + apply list_elem_of_In, list_elem_of_lookup. exists i.
      apply lookup_zip_with_Some. eauto.
    + cbn [fst]. now rewrite (under_zip hs cs i h c).
Qed.

Lemma columns_regular (hs : list string) (row : list string) :
  length row = S (length hs) ->
  columns hs row = zip hs (drop 1 (map trim row)).
Proof.
  intros Hlen. unfold columns.
  assert (length (drop 1 (map trim row)) = length hs) as Hcells
    by (rewrite length_drop, length_map; lia).
  rewrite columns_zip by lia. rewrite Hcells. now rewrite firstn_all.
Qed.

(** X2.  On a regular table the CSV text is the table itself, first
    column and empty rows left out: the header line, then for each body
    row that has a non-empty cell after the first, its trimmed cells after
    the first, joined by commas. *)
Theorem regular_table_as_csv proto headerCells rows :
  regular (readHeaders headerCells) rows ->
  script proto (Document (Some headerCells) (Some rows))
  = [ClickDownload "data.csv" "text/csv"
       (join newline
          (join "," (readHeaders headerCells)
           :: map (fun row => join "," (drop 1 (map trim row)))
                (List.filter (fun row => existsb truthy (drop 1 (map trim row))) rows)));
     RevokeObjectURL].
Proof.
  intros [Hnd Hrows]. unfold script. cbn [dataTable headerTable].
  rewrite csvText_by_columns. do 4 f_equal.
  assert (forall row, In row rows ->
            columns (readHeaders headerCells) row
            = zip (readHeaders headerCells) (drop 1 (map trim row))
            /\ length (readHeaders headerCells) = length (drop 1 (map trim row))) as Hcols.
  { intros row Hin. rewrite List.Forall_forall in Hrows. specialize (Hrows row Hin).
    split; [now apply columns_regular |]. rewrite length_drop, length_map. lia. }
  transitivity
    (map (fun row => join "," (drop 1 (map trim row)))
       (List.filter (fun row => showsValue (columns (readHeaders headerCells) row)) rows)).
  - apply List.map_ext_in. intros row Hin. apply List.filter_In in Hin as [Hin _].
    destruct (Hcols row Hin) as [-> Hlen]. now rewrite printed_regular.
  - f_equal. apply List.filter_ext_in. intros row Hin.
    destruct (Hcols row Hin) as [-> Hlen]. now apply showsValue_regular.
Qed.

Lemma regular_table_as_csv_witness :
  regular (readHeaders [""; " Name "; "Version"])
    [["1"; "nano"; "6.2"]; ["2"; " "; ""]; ["3"; "vim"; ""]]
  /\ script (fun _ => None)
       (Document (Some [""; " Name "; "Version"])
          (Some [["1"; "nano"; "6.2"]; ["2"; " "; ""]; ["3"; "vim"; ""]]))
     = [ClickDownload "data.csv" "text/csv"
          ("Name,Version" +:+ newline +:+ "nano,6.2" +:+ newline +:+ "vim,");
        RevokeObjectURL].
Proof.
  assert (regular (readHeaders [""; " Name "; "Version"])
            [["1"; "nano"; "6.2"]; ["2"; " "; ""]; ["3"; "vim"; ""]]) as Hreg.
  { split; [| repeat constructor].
    change (NoDup ["Name"; "Version"]).
    repeat constructor; rewrite ?list_elem_of_In; cbn; intuition discriminate. }
  split; [exact Hreg |].
  exact (regular_table_as_csv (fun _ => None) _ _ Hreg).
Defined.

(** * More of the downloader: any storage, whole walks *)

Import Outcomes.

(** ** [main] on any storage *)

Lemma main_stored pg w text :
  storage w !! PACKAGES_KEY = Some text ->
  truthy text = true ->
  main pg w =
    match JSON_parse text with
    | None => (Unmodelled, w)
    | Some packages =>
        if geLength (cursorOf (storage w)) (length packages) then (Returned, doneWorld w)
        else match index packages (cursorOf (storage w)) with
             | Some pkg => processPackage pg (cursorOf (storage w)) pkg w
             | None => (Thrown TypeError, w)
             end
    end.
Proof.
  intros Htext Htruthy. unfold main.
  step. rewrite Htext. cbn [truthyOpt]. rewrite Htruthy. cbn [negb].
  step. step. rewrite Htext. unfold parsePackages.
  destruct (JSON_parse text) as [packages |]; [| now step].
  step. step. fold (cursorOf (storage w)).
  destruct (geLength (cursorOf (storage w)) (length packages)).
  - repeat step. destruct w; reflexivity.
  - destruct (index packages (cursorOf (storage w))); reflexivity.
Qed.

Lemma main_walked pg packages w :
  exists comp st' es,
    walked pg packages (cursorOf (storage w)) (storage w) comp st' es
    /\ (if geLength (cursorOf (storage w)) (length packages) then (Returned, doneWorld w)
        else match index packages (cursorOf (storage w)) with
             | Some pkg => processPackage pg (cursorOf (storage w)) pkg w
             | None => (Thrown TypeError, w)
             end)
       = (comp, World st' (rev es ++ events w)).
Proof.
  set (idx := cursorOf (storage w)).
  destruct (geLength idx (length packages)) eqn:Hge.
  { do 3 eexists. split; [now apply AtEnd | reflexivity]. }
  destruct (index packages idx) as [pkg |] eqn:Hpkg.
  2:{ exists (Thrown TypeError), (storage w), []. split; [now apply NoItem | now destruct w]. }
  destruct (charAt0 pkg) as [first |] eqn:Hfirst.
  2:{ exists (Thrown TypeError), (storage w), []. split; [now apply (EmptyName _ _ _ _ pkg) |].
      unfold processPackage. rewrite Hfirst. now destruct w. }
  destruct (startsWith (pathname pg) (expectedPathOf (toLowerCase first))) eqn:Hpath.
  2:{ do 3 eexists. split; [now apply (GoToFolder _ _ _ _ pkg first) |].
      now rewrite (processPackage_elsewhere pg _ pkg first). }
  assert (inFolderOf pg pkg = true) as Hin by (unfold inFolderOf; now rewrite Hfirst).
  destruct (RegExp.compile (patternSource pkg)) as [re | |] eqn:Hre.
  - rewrite (processPackage_here pg _ pkg re) by assumption.
    destruct (List.filter (isMatch re) (anchors pg)) as [| h rest] eqn:Hlinks.
    + do 3 eexists. split; [now apply (Missing _ _ _ _ pkg re) | reflexivity].
    + do 3 eexists. split; [now apply (Fetched _ _ _ _ pkg re h rest) | reflexivity].
  - exists (Thrown RegExpSyntaxError), (storage w), [].
    split; [now apply (PatternRefused _ _ _ _ pkg) |].
    rewrite processPackage_bad_pattern by assumption. now destruct w.
  - exists Unmodelled, (storage w), [].
    split; [now apply (PatternOutside _ _ _ _ pkg) |].
    unfold processPackage. rewrite Hfirst. cbv zeta. rewrite Hpath. cbn [negb].
    unfold newRegExp. rewrite Hre. step. now destruct w.
Qed.

(** Every invocation goes one of the ways of [ran]. *)
Lemma run_ran pg st :
  exists comp st' es, ran pg st comp st' es /\ run pg st = (comp, st', es).
Proof.
  unfold run, runOf.
  destruct (truthyOpt (st !! PACKAGES_KEY)) eqn:Hstored.
  - destruct (st !! PACKAGES_KEY) as [text |] eqn:Htext; [| discriminate].
    cbn [truthyOpt] in Hstored.
    rewrite (main_stored pg (World st []) text) by assumption.
    destruct (JSON_parse text) as [packages |] eqn:Hparse.
    + destruct (main_walked pg packages (World st [])) as (comp & st' & es & Hw & ->).
      exists comp, st', es. split; [now apply (Resumed _ _ text packages) |].
      cbn [storage events]. now rewrite app_nil_r, rev_involutive.
    + exists Unmodelled, st, []. split; [now apply (NotAList _ _ text) | reflexivity].
  - rewrite main_fresh by exact Hstored.
    destruct (splitPackages (default EmptyString (promptAnswer pg))) as [| p ps] eqn:Hpkgs.
    + do 3 eexists. split; [now apply Refused | reflexivity].
    + set (w := startedWorld (p :: ps) (World st [])).
      rewrite (main_stored pg w (JSON_stringify (p :: ps)));
        [| apply persisted_started | apply truthy_JSON_stringify].
      rewrite JSON_parse_stringify.
      destruct (main_walked pg (p :: ps) w) as (comp & st' & es & Hw & ->).
      exists comp, st', (startEvents (p :: ps) ++ es)%list. split.
      * apply Started; [assumption .. |].
        replace (Int 0) with (cursorOf (storage w)); [exact Hw |].
        apply (cursorOf_persisted (p :: ps) 0), persisted_started.
      * cbn [storage events w startedWorld]. rewrite rev_app_distr, rev_involutive.
        reflexivity.
Qed.

Ltac ran_cases pg st H :=
  let comp := fresh "comp" in
  let st' := fresh "st'" in
  let es := fresh "es" in
  let Hrun := fresh "Hrun" in
  destruct (run_ran pg st) as (comp & st' & es & H & Hrun);
  unfold covered in *; rewrite Hrun in *;
  unfold completionOf, storageOf, traceOf in *; cbn [fst snd] in *.

Lemma walked_frame pg packages idx st comp st' es k :
  k <> PACKAGES_KEY -> k <> INDEX_KEY ->
  walked pg packages idx st comp st' es -> st' !! k = st !! k.
Proof.
  intros Hp Hi Hw. inversion Hw; subst; try reflexivity.
  - now rewrite !lookup_delete_ne by congruence.
  - now rewrite lookup_insert_ne by congruence.
  - now rewrite lookup_insert_ne by congruence.
Qed.

(** X5.  An invocation reads and writes its own two entries of
    [sessionStorage] and no other: whatever the storage holds and whatever
    the page is, every other key has after a run that the model covers
    the value it had before
    (lines 23-91: every [setItem] and [removeItem] names [PACKAGES_KEY] or
    [INDEX_KEY]). *)
Theorem other_entries_untouched pg st k :
  covered (run pg st) ->
  k <> PACKAGES_KEY -> k <> INDEX_KEY ->
  storageOf (run pg st) !! k = st !! k.
Proof.
  intros Hcov Hp Hi. ran_cases pg st Hran.
  inversion Hran as [| p ps ? ? es0 _ _ Hw | | text packages ? ? ? _ _ _ Hw]; subst;
    try reflexivity.
  - rewrite (walked_frame _ _ _ _ _ _ _ k Hp Hi Hw). unfold startedStorage.
    now rewrite !lookup_insert_ne by congruence.
  - exact (walked_frame _ _ _ _ _ _ _ k Hp Hi Hw).
Qed.

Lemma other_entries_untouched_witness :
  covered (run pgA (<["theme" := "dark"]> (stored ["nano"; "vim"] 0)))
  /\ "theme" <> PACKAGES_KEY /\ "theme" <> INDEX_KEY
  /\ storageOf (run pgA (<["theme" := "dark"]> (stored ["nano"; "vim"] 0))) !! "theme"
     = Some "dark".
Proof.
  assert (covered (run pgA (<["theme" := "dark"]> (stored ["nano"; "vim"] 0)))) as Hcov
    by (vm_compute; intros H; discriminate H).
  split; [exact Hcov |]. split; [discriminate |]. split; [discriminate |].
  rewrite (other_entries_untouched pgA _ "theme" Hcov); [| discriminate | discriminate].
  reflexivity.
Defined.

Lemma walked_counts pg packages idx st comp st' es :
  walked pg packages idx st comp st' es ->
  length (downloads es) + length (navigations es) <= 1
  /\ length (navigations es) + reloads es <= 1
  /\ length (downloads es) <= reloads es
  /\ prompts es = [].
Proof.
  inversion 1; subst; cbn; repeat split; lia.
Qed.

Lemma walked_after_download pg packages idx st comp st' es pre url post :
  walked pg packages idx st comp st' es ->
  es = (pre ++ Download url :: post)%list ->
  exists message,
    pre = [ConsoleLog message]
    /\ post = [SetItem INDEX_KEY (numberToString (addOne idx)); Sleep 3000; Reload].
Proof.
  intros Hw Hes. inversion Hw; subst;
    repeat (destruct pre as [| ? pre]; cbn [app] in *; simplify_eq).
  eexists. split; reflexivity.
Qed.

(** X6.  One invocation does at most one thing to the page, whatever the
    storage holds.  In a run that the model covers it downloads
    at most one file, it never both downloads and navigates, it never both
    navigates and reloads, and it never downloads without reloading
    afterwards: what follows a download in the trace is the write of the
    cursor, the pause of 3000 ms and the reload, in that order and nothing
    else (lines 55-60, 69-74, 77-91). *)
Theorem one_action_per_invocation pg st :
  covered (run pg st) ->
  length (downloads (traceOf (run pg st))) + length (navigations (traceOf (run pg st))) <= 1
  /\ length (navigations (traceOf (run pg st))) + reloads (traceOf (run pg st)) <= 1
  /\ length (downloads (traceOf (run pg st))) <= reloads (traceOf (run pg st))
  /\ (forall pre url post,
        traceOf (run pg st) = (pre ++ Download url :: post)%list ->
        exists v, post = [SetItem INDEX_KEY v; Sleep 3000; Reload]).
Proof.
  intros Hcov. ran_cases pg st Hran.
  inversion Hran as [| p ps ? ? es0 _ _ Hw | | text packages ? ? ? _ _ _ Hw]; subst.
  - split; [cbn; lia |]. split; [cbn; lia |]. split; [cbn; lia |].
    intros pre url post Htr.
    repeat (destruct pre as [| ? pre]; cbn [app] in *; simplify_eq).
  - destruct (walked_counts _ _ _ _ _ _ _ Hw) as (H1 & H2 & H3 & _).
    split; [| split; [| split]].
    + unfold startEvents, downloads, navigations, reloads in *. cbn. cbn in H1. lia.
    + unfold startEvents, downloads, navigations, reloads in *. cbn. cbn in H2. lia.
    + unfold startEvents, downloads, navigations, reloads in *. cbn. cbn in H3. lia.
    + intros pre url post Htr. unfold startEvents in Htr.
      do 4 (destruct pre as [| ? pre]; cbn [app] in Htr; [discriminate Htr |];
            injection Htr as <- Htr).
      destruct (walked_after_download _ _ _ _ _ _ _ _ _ _ Hw Htr) as (message & _ & ->).
      eexists. reflexivity.
  - congruence.
  - destruct (walked_counts _ _ _ _ _ _ _ Hw) as (H1 & H2 & H3 & _).
    split; [lia |]. split; [lia |]. split; [lia |].
    intros pre url post Htr.
    destruct (walked_after_download _ _ _ _ _ _ _ _ _ _ Hw Htr) as (message & _ & ->).
    eexists. reflexivity.
Qed.

Lemma one_action_per_invocation_witness :
  covered (run pgA (stored ["nano"; "vim"] 0))
  /\ length (downloads (traceOf (run pgA (stored ["nano"; "vim"] 0))))
     + length (navigations (traceOf (run pgA (stored ["nano"; "vim"] 0)))) <= 1
  /\ length (navigations (traceOf (run pgA (stored ["nano"; "vim"] 0))))
     + reloads (traceOf (run pgA (stored ["nano"; "vim"] 0))) <= 1
  /\ length (downloads (traceOf (run pgA (stored ["nano"; "vim"] 0))))
     <= reloads (traceOf (run pgA (stored ["nano"; "vim"] 0)))
  /\ (forall pre url post,
        traceOf (run pgA (stored ["nano"; "vim"] 0)) = (pre ++ Download url :: post)%list ->
        exists v, post = [SetItem INDEX_KEY v; Sleep 3000; Reload]).
Proof.
  assert (covered (run pgA (stored ["nano"; "vim"] 0))) as Hcov
    by (vm_compute; intros H; discriminate H).
  split; [exact Hcov |].
  exact (one_action_per_invocation pgA (stored ["nano"; "vim"] 0) Hcov).
Defined.

(** X7.  The script asks for the list exactly when none is stored.  Of
    the runs that the model covers, one that finds a non-empty entry under [PACKAGES_KEY] shows no
    prompt, one that finds none (or an empty one) shows the prompt once
    (lines 23-24). *)
Theorem asks_only_without_a_list pg st :
  covered (run pg st) ->
  prompts (traceOf (run pg st))
  = if truthyOpt (st !! PACKAGES_KEY) then [] else [promptText].
Proof.
  intros Hcov. ran_cases pg st Hran.
  inversion Hran as [Hs _ | p ps ? ? es0 Hs _ Hw | text Ht Htr _
                     | text packages ? ? ? Ht Htr _ Hw]; subst.
  - now rewrite Hs.
  - rewrite Hs. destruct (walked_counts _ _ _ _ _ _ _ Hw) as (_ & _ & _ & Hno).
    unfold startEvents. cbn. unfold prompts in Hno. now rewrite Hno.
  - congruence.
  - rewrite Ht. cbn [truthyOpt]. rewrite Htr.
    now destruct (walked_counts _ _ _ _ _ _ _ Hw) as (_ & _ & _ & Hno).
Qed.

Lemma asks_only_without_a_list_witness :
  covered (run pgA (stored ["nano"; "vim"] 0))
  /\ prompts (traceOf (run pgA (stored ["nano"; "vim"] 0))) = []
  /\ covered (run pgA ∅)
  /\ prompts (traceOf (run pgA ∅)) = [promptText].
Proof.
  assert (covered (run pgA (stored ["nano"; "vim"] 0))) as Hcov
    by (vm_compute; intros H; discriminate H).
  assert (covered (run pgA ∅)) as Hcov0 by (vm_compute; intros H; discriminate H).
  split; [exact Hcov |].
  split; [exact (asks_only_without_a_list pgA (stored ["nano"; "vim"] 0) Hcov) |].
  split; [exact Hcov0 |].
  exact (asks_only_without_a_list pgA ∅ Hcov0).
Defined.

Lemma walked_download pg packages idx st comp st' es url :
  walked pg packages idx st comp st' es ->
  In url (downloads es) ->
  exists pkg re h,
    index packages idx = Some pkg
    /\ RegExp.compile (patternSource pkg) = RegExp.Pattern re
    /\ In (Some h) (anchors pg)
    /\ truthy h = true
    /\ RegExp.test re h = true
    /\ url = href pg +:+ h.
Proof.
  inversion 1 as [| | | | | | | pkg re first rest Hge Hpkg Hin Hre Hlinks]; subst;
    cbn; try tauto.
  intros [<- | []].
  assert (In first (List.filter (isMatch re) (anchors pg))) as Hfirst
    by (rewrite Hlinks; now left).
  apply List.filter_In in Hfirst as [Hlisted Hmatch].
  destruct first as [h |]; [| discriminate].
  cbn [isMatch] in Hmatch. apply andb_prop in Hmatch as [Htruthy Htest].
  exists pkg, re, h. repeat split; assumption.
Qed.

(** X8.  Whatever is downloaded comes from the listing of the page the
    script runs on.  In a run that the model covers the address of a download is [window.location.href]
    followed by the [href] attribute of an anchor of the page, that
    attribute is not empty, and the pattern built from a package name
    accepts it (lines 63-67, 77-85).  An anchor without [href] is never
    downloaded. *)
Theorem downloads_come_from_listing pg st url :
  covered (run pg st) ->
  In url (downloads (traceOf (run pg st))) ->
  exists pkg re h,
    RegExp.compile (patternSource pkg) = RegExp.Pattern re
    /\ In (Some h) (anchors pg)
    /\ truthy h = true
    /\ RegExp.test re h = true
    /\ url = href pg +:+ h.
Proof.
  intros Hcov. ran_cases pg st Hran.
  inversion Hran as [| p ps ? ? es0 _ _ Hw | | text packages ? ? ? _ _ _ Hw]; subst;
    cbn; try tauto.
  - intros Hurl.
    destruct (walked_download _ _ _ _ _ _ _ url Hw Hurl) as (pkg & re & h & _ & Hrest).
    now exists pkg, re, h.
  - intros Hurl.
    destruct (walked_download _ _ _ _ _ _ _ url Hw Hurl) as (pkg & re & h & _ & Hrest).
    now exists pkg, re, h.
Qed.

Lemma downloads_come_from_listing_witness :
  covered (run pgA (stored ["nano"; "vim"] 0))
  /\ In (href pgA +:+ "nano-6.2-1.el9.x86_64.rpm")
       (downloads (traceOf (run pgA (stored ["nano"; "vim"] 0))))
  /\ exists pkg re h,
       RegExp.compile (patternSource pkg) = RegExp.Pattern re
       /\ In (Some h) (anchors pgA)
       /\ truthy h = true
       /\ RegExp.test re h = true
       /\ href pgA +:+ "nano-6.2-1.el9.x86_64.rpm" = href pgA +:+ h.
Proof.
  assert (covered (run pgA (stored ["nano"; "vim"] 0))) as Hcov
    by (vm_compute; intros H; discriminate H).
  split; [exact Hcov |]. split; [vm_compute; now left |].
  apply (downloads_come_from_listing pgA (stored ["nano"; "vim"] 0) _ Hcov).
  vm_compute. now left.
Defined.

Lemma walked_navigation pg packages idx st comp st' es url :
  walked pg packages idx st comp st' es ->
  In url (navigations es) ->
  exists c,
    url = "https://dl.fedoraproject.org/pub/epel/9/Everything/x86_64/Packages/"
          +:+ String (lowerChar c) "/"
    /\ startsWith (pathname pg)
         ("/pub/epel/9/Everything/x86_64/Packages/" +:+ String (lowerChar c) "/") = false.
Proof.
  inversion 1 as [| | | pkg first Hge Hpkg Hfirst Hpath | | | |]; subst; cbn; try tauto.
  intros [<- | []].
  destruct pkg as [| c pkg']; [discriminate |]. cbn [charAt0] in Hfirst.
  injection Hfirst as <-. exists c. split; [reflexivity | exact Hpath].
Qed.

(** X9.  The script only ever navigates to a letter folder of the EPEL 9
    tree on [dl.fedoraproject.org], and only when the page it runs on is
    not inside that folder: in a run that the model covers the address is the fixed prefix, one code
    unit in lower case, and a slash (lines 50-59). *)
Theorem navigation_stays_on_mirror pg st url :
  covered (run pg st) ->
  In url (navigations (traceOf (run pg st))) ->
  exists c,
    url = "https://dl.fedoraproject.org/pub/epel/9/Everything/x86_64/Packages/"
          +:+ String (lowerChar c) "/"
    /\ startsWith (pathname pg)
         ("/pub/epel/9/Everything/x86_64/Packages/" +:+ String (lowerChar c) "/") = false.
Proof.
  intros Hcov. ran_cases pg st Hran.
  inversion Hran as [| p ps ? ? es0 _ _ Hw | | text packages ? ? ? _ _ _ Hw]; subst;
    cbn; try tauto.
  - intros Hurl. exact (walked_navigation _ _ _ _ _ _ _ url Hw Hurl).
  - intros Hurl. exact (walked_navigation _ _ _ _ _ _ _ url Hw Hurl).
Qed.

Lemma navigation_stays_on_mirror_witness :
  covered (run pgA (stored ["Vim"] 0))
  /\ In "https://dl.fedoraproject.org/pub/epel/9/Everything/x86_64/Packages/v/"
       (navigations (traceOf (run pgA (stored ["Vim"] 0))))
  /\ exists c,
       "https://dl.fedoraproject.org/pub/epel/9/Everything/x86_64/Packages/v/"
       = "https://dl.fedoraproject.org/pub/epel/9/Everything/x86_64/Packages/"
         +:+ String (lowerChar c) "/"
       /\ startsWith (pathname pgA)
            ("/pub/epel/9/Everything/x86_64/Packages/" +:+ String (lowerChar c) "/") = false.
Proof.
  assert (covered (run pgA (stored ["Vim"] 0))) as Hcov
    by (vm_compute; intros H; discriminate H).
  split; [exact Hcov |]. split; [vm_compute; now left |].
  apply (navigation_stays_on_mirror pgA (stored ["Vim"] 0) _ Hcov).
  vm_compute. now left.
Defined.

(** X10.  Once a list is stored no invocation writes it again: the only
    [setItem] of a run that the model covers is then on the cursor, and after the run the entry
    under [PACKAGES_KEY] is the text it was, unless the run found the walk
    complete, showed the completion alert and removed both entries
    (lines 23, 34, 42-46). *)
Theorem stored_list_is_never_replaced pg st text :
  covered (run pg st) ->
  st !! PACKAGES_KEY = Some text ->
  truthy text = true ->
  (storageOf (run pg st) !! PACKAGES_KEY = Some text
   \/ (storageOf (run pg st) !! PACKAGES_KEY = None
       /\ storageOf (run pg st) !! INDEX_KEY = None
       /\ alerts (traceOf (run pg st)) = ["All packages processed!"]))
  /\ Forall (fun e => match e with SetItem k _ => k = INDEX_KEY | _ => True end)
       (traceOf (run pg st)).
Proof.
  intros Hcov Htext Htruthy. ran_cases pg st Hran.
  inversion Hran as [Hs _ | p ps ? ? es0 Hs _ Hw | | text' packages ? ? ? _ _ _ Hw]; subst.
  - rewrite Htext in Hs. cbn [truthyOpt] in Hs. congruence.
  - rewrite Htext in Hs. cbn [truthyOpt] in Hs. congruence.
  - congruence.
  - inversion Hw; subst; (split; [| repeat constructor]);
      try (left; exact Htext);
      try (left; rewrite lookup_insert_ne by discriminate; exact Htext).
    right. split; [| split; [| reflexivity]].
    + rewrite lookup_delete_ne by discriminate. apply lookup_delete_eq.
    + apply lookup_delete_eq.
Qed.

Lemma stored_list_is_never_replaced_witness :
  covered (run pgA (stored ["nano"; "vim"] 0))
  /\ stored ["nano"; "vim"] 0 !! PACKAGES_KEY = Some (JSON_stringify ["nano"; "vim"])
  /\ truthy (JSON_stringify ["nano"; "vim"]) = true
  /\ (storageOf (run pgA (stored ["nano"; "vim"] 0)) !! PACKAGES_KEY
      = Some (JSON_stringify ["nano"; "vim"])
      \/ (storageOf (run pgA (stored ["nano"; "vim"] 0)) !! PACKAGES_KEY = None
          /\ storageOf (run pgA (stored ["nano"; "vim"] 0)) !! INDEX_KEY = None
          /\ alerts (traceOf (run pgA (stored ["nano"; "vim"] 0)))
             = ["All packages processed!"]))
  /\ Forall (fun e => match e with SetItem k _ => k = INDEX_KEY | _ => True end)
       (traceOf (run pgA (stored ["nano"; "vim"] 0))).
Proof.
  assert (covered (run pgA (stored ["nano"; "vim"] 0))) as Hcov
    by (vm_compute; intros H; discriminate H).
  split; [exact Hcov |]. split; [reflexivity |]. split; [reflexivity |].
  apply (stored_list_is_never_replaced pgA (stored ["nano"; "vim"] 0)
           (JSON_stringify ["nano"; "vim"]) Hcov); reflexivity.
Defined.

Lemma index_unreadable {A} (l : list A) idx :
  (idx = NaN \/ exists z, idx = Int z /\ (z < 0)%Z) ->
  geLength idx (length l) = false /\ index l idx = None.
Proof.
  intros [-> | (z & -> & Hz)]; [split; reflexivity |].
  unfold geLength, index. split.
  - apply Z.leb_gt. lia.
  - now destruct (Z.ltb_spec z 0); [| lia].
Qed.

(** X11.  A stored list without a readable cursor stops the script for
    good.  When the entry under [INDEX_KEY] is missing or does not start
    with a number, [parseInt] gives NaN; [NaN >= packages.length] is
    false and [packages[NaN]] is [undefined], so [pkg[0]] throws a
    TypeError before anything is done; the same holds for a negative
    cursor.  The storage is left as it was, so every later invocation, on
    whatever pages, ends the same way (lines 39-50). *)
Theorem unreadable_cursor_stalls pgs pg st text packages :
  st !! PACKAGES_KEY = Some text ->
  truthy text = true ->
  JSON_parse text = Some packages ->
  (cursorOf st = NaN \/ exists z, cursorOf st = Int z /\ (z < 0)%Z) ->
  run pg st = (Thrown TypeError, st, [])
  /\ invocations pgs st = st.
Proof.
  intros Htext Htruthy Hparse Hcursor.
  assert (forall pg', run pg' st = (Thrown TypeError, st, [])) as Hrun.
  { intros pg'. unfold run, runOf.
    rewrite (main_stored pg' (World st []) text) by assumption.
    rewrite Hparse. cbn [storage].
    destruct (index_unreadable packages _ Hcursor) as [-> ->]. reflexivity. }
  split; [apply Hrun |].
  induction pgs as [| pg' pgs IH]; [reflexivity |].
  change (invocations (pg' :: pgs) st) with (invocations pgs (storageOf (run pg' st))).
  rewrite Hrun. exact IH.
Qed.

Lemma unreadable_cursor_stalls_witness :
  (<[PACKAGES_KEY := JSON_stringify ["nano"; "vim"]]> (∅ : gmap string string)) !! PACKAGES_KEY
  = Some (JSON_stringify ["nano"; "vim"])
  /\ truthy (JSON_stringify ["nano"; "vim"]) = true
  /\ JSON_parse (JSON_stringify ["nano"; "vim"]) = Some ["nano"; "vim"]
  /\ cursorOf (<[PACKAGES_KEY := JSON_stringify ["nano"; "vim"]]> ∅) = NaN
  /\ run pgA (<[PACKAGES_KEY := JSON_stringify ["nano"; "vim"]]> ∅)
     = (Thrown TypeError, <[PACKAGES_KEY := JSON_stringify ["nano"; "vim"]]> ∅, [])
  /\ invocations [pgA; pgV] (<[PACKAGES_KEY := JSON_stringify ["nano"; "vim"]]> ∅)
     = <[PACKAGES_KEY := JSON_stringify ["nano"; "vim"]]> ∅.
Proof.
  split; [reflexivity |]. split; [reflexivity |]. split; [reflexivity |].
  split; [reflexivity |].
  apply (unreadable_cursor_stalls [pgA; pgV] pgA _ (JSON_stringify ["nano"; "vim"])
           ["nano"; "vim"]); [reflexivity | reflexivity | reflexivity | left; reflexivity].
Defined.

(** ** The first invocation and the ones after it *)

Lemma walked_functional pg packages idx st c1 s1 e1 c2 s2 e2 :
  walked pg packages idx st c1 s1 e1 ->
  walked pg packages idx st c2 s2 e2 ->
  c1 = c2 /\ s1 = s2 /\ e1 = e2.
Proof.
  intros H1 H2. inversion H1; inversion H2; subst; simplify_eq;
    try (repeat split; reflexivity);
    unfold inFolderOf in *.
  all: repeat match goal with
              | H : charAt0 ?p = _, H' : context [match charAt0 ?p with _ => _ end] |- _ =>
                  rewrite H in H'
              end.
  all: try congruence.
  all: repeat match goal with
              | H : ?x = _, H' : ?x = _ |- _ => rewrite H in H'
              end.
  all: simplify_eq; try congruence.
  all: repeat match goal with
              | H : ?x = _, H' : ?x = _ |- _ => rewrite H in H'
              end.
  all: simplify_eq; repeat split; reflexivity.
Qed.

(** X12.  The invocation that asks for the list also takes the first step
    of the walk.  With no list stored and an answer that gives at least
    one name, a run that the model covers is: the prompt, the two entries written (the list,
    the cursor 0), the start alert, and then exactly what an invocation on
    the same page does when it finds those two entries stored; it ends the
    same way and leaves the same storage (lines 23-37, then 39-91 in the
    same call). *)
Theorem first_invocation_starts_then_steps pg st p ps :
  covered (run pg st) ->
  truthyOpt (st !! PACKAGES_KEY) = false ->
  splitPackages (default EmptyString (promptAnswer pg)) = p :: ps ->
  run pg st
  = (completionOf (run pg (startedStorage (p :: ps) st)),
     storageOf (run pg (startedStorage (p :: ps) st)),
     (startEvents (p :: ps) ++ traceOf (run pg (startedStorage (p :: ps) st)))%list).
Proof.
  intros _ Hnone Hpkgs.
  destruct (run_ran pg st) as (comp & st' & es & Hran & ->).
  destruct (run_ran pg (startedStorage (p :: ps) st)) as (comp0 & st0 & es0 & Hran0 & ->).
  unfold completionOf, storageOf, traceOf; cbn [fst snd].
  assert (startedStorage (p :: ps) st !! PACKAGES_KEY = Some (JSON_stringify (p :: ps)))
    as Htext.
  { unfold startedStorage. rewrite lookup_insert_ne by discriminate. apply lookup_insert_eq. }
  assert (cursorOf (startedStorage (p :: ps) st) = Int 0) as Hcursor.
  { unfold cursorOf, startedStorage. now rewrite lookup_insert_eq. }
  inversion Hran as [Hs Hnil | p' ps' ? ? es1 Hs Hcons Hw | text Ht Htr _
                     | text packages ? ? ? Ht Htr _ _]; subst;
    [congruence | | rewrite Ht in Hnone; cbn [truthyOpt] in Hnone; congruence
     | rewrite Ht in Hnone; cbn [truthyOpt] in Hnone; congruence].
  rewrite Hpkgs in Hcons. injection Hcons as <- <-.
  inversion Hran0 as [Hs0 _ | ? ? ? ? ? Hs0 _ _ | text Ht _ Hparse
                      | text packages ? ? ? Ht _ Hparse Hw0]; subst.
  - rewrite Htext in Hs0. cbn [truthyOpt] in Hs0. now rewrite truthy_JSON_stringify in Hs0.
  - rewrite Htext in Hs0. cbn [truthyOpt] in Hs0. now rewrite truthy_JSON_stringify in Hs0.
  - rewrite Htext in Ht. injection Ht as <-. now rewrite JSON_parse_stringify in Hparse.
  - rewrite Htext in Ht. injection Ht as <-. rewrite JSON_parse_stringify in Hparse.
    injection Hparse as <-. rewrite Hcursor in Hw0.
    destruct (walked_functional _ _ _ _ _ _ _ _ _ _ Hw Hw0) as (-> & -> & ->).
    reflexivity.
Qed.

Lemma first_invocation_starts_then_steps_witness :
  covered (run (Page (Some "nano, vim") (pathname pgA) (href pgA) (anchors pgA)) ∅)
  /\ truthyOpt ((∅ : gmap string string) !! PACKAGES_KEY) = false
  /\ splitPackages "nano, vim" = ["nano"; "vim"]
  /\ run (Page (Some "nano, vim") (pathname pgA) (href pgA) (anchors pgA)) ∅
     = (completionOf (run (Page (Some "nano, vim") (pathname pgA) (href pgA) (anchors pgA))
                        (startedStorage ["nano"; "vim"] ∅)),
        storageOf (run (Page (Some "nano, vim") (pathname pgA) (href pgA) (anchors pgA))
                     (startedStorage ["nano"; "vim"] ∅)),
        (startEvents ["nano"; "vim"]
         ++ traceOf (run (Page (Some "nano, vim") (pathname pgA) (href pgA) (anchors pgA))
                       (startedStorage ["nano"; "vim"] ∅)))%list).
Proof.
  assert (covered (run (Page (Some "nano, vim") (pathname pgA) (href pgA) (anchors pgA)) ∅))
    as Hcov by (vm_compute; intros H; discriminate H).
  split; [exact Hcov |]. split; [reflexivity |]. split; [vm_compute; reflexivity |].
  apply (first_invocation_starts_then_steps
           (Page (Some "nano, vim") (pathname pgA) (href pgA) (anchors pgA)) ∅ "nano" ["vim"]
           Hcov); [reflexivity | vm_compute; reflexivity].
Defined.

Lemma downloads_app a b : downloads (a ++ b) = (downloads a ++ downloads b)%list.
Proof. apply omap_app. Qed.

Lemma reloads_app a b : reloads (a ++ b) = reloads a + reloads b.
Proof. unfold reloads. now rewrite List.filter_app, length_app. Qed.

(** X13.  A name whose pattern the engine refuses blocks the walk for
    good.  When the item under the cursor gives a pattern source that
    [new RegExp] rejects with a SyntaxError, no invocation, on whatever
    sequence of pages, moves the cursor, downloads anything or reloads:
    the storage stays as it is and the items after it are never reached
    (lines 64, 71, 88: the cursor is only written after the pattern was
    built). *)
Theorem refused_pattern_blocks_walk pgs st W c pkg :
  persisted W c st ->
  W !! c = Some pkg ->
  RegExp.compile (patternSource pkg) = RegExp.SyntaxError ->
  invocations pgs st = st
  /\ downloads (walkTrace pgs st) = []
  /\ reloads (walkTrace pgs st) = 0.
Proof.
  intros Hp Hpkg Hre.
  assert (forall pg, storageOf (run pg st) = st
                     /\ downloads (traceOf (run pg st)) = []
                     /\ reloads (traceOf (run pg st)) = 0) as Hrun.
  { intros pg. destruct (run_invocation pg W c st Hp) as (comp & ch & es & Hinv & ->).
    unfold storageOf, traceOf; cbn [fst snd].
    pose proof (lookup_lt_Some _ _ _ Hpkg) as Hlt.
    inversion Hinv; subst; simplify_eq; try lia; try congruence; repeat split. }
  induction pgs as [| pg pgs (IH1 & IH2 & IH3)]; [repeat split |].
  destruct (Hrun pg) as (Hst & Hd & Hr).
  change (invocations (pg :: pgs) st) with (invocations pgs (storageOf (run pg st))).
  cbn [walkTrace]. rewrite downloads_app, reloads_app, Hst, Hd, Hr, IH2, IH3.
  repeat split. exact IH1.
Qed.

Lemma refused_pattern_blocks_walk_witness :
  persisted ["gcc-c++"; "nano"] 0 (stored ["gcc-c++"; "nano"] 0)
  /\ ["gcc-c++"; "nano"] !! 0 = Some "gcc-c++"
  /\ RegExp.compile (patternSource "gcc-c++") = RegExp.SyntaxError
  /\ invocations [pgA; pgG; pgG] (stored ["gcc-c++"; "nano"] 0) = stored ["gcc-c++"; "nano"] 0
  /\ downloads (walkTrace [pgA; pgG; pgG] (stored ["gcc-c++"; "nano"] 0)) = []
  /\ reloads (walkTrace [pgA; pgG; pgG] (stored ["gcc-c++"; "nano"] 0)) = 0.
Proof.
  split; [split; reflexivity |]. split; [reflexivity |]. split; [vm_compute; reflexivity |].
  apply (refused_pattern_blocks_walk [pgA; pgG; pgG] _ ["gcc-c++"; "nano"] 0 "gcc-c++");
    [split; reflexivity | reflexivity | vm_compute; reflexivity].
Defined.

(** X14.  A walk over pages that are each the folder of the item under
    the cursor takes one invocation per item.  When the pattern of each of
    those items compiles, the cursor is further by the number of pages
    afterwards, every invocation reloads once, and what was downloaded is,
    in the order of the list, the first matching link of each page for its
    item, nothing for the items whose page has no match (lines 42-91,
    invocation after invocation). *)
Theorem walk_downloads_first_matches pgs W c st :
  persisted W c st ->
  c + length pgs <= length W ->
  (forall i pg pkg,
     pgs !! i = Some pg -> W !! (c + i) = Some pkg ->
     inFolderOf pg pkg = true
     /\ exists re, RegExp.compile (patternSource pkg) = RegExp.Pattern re) ->
  persisted W (c + length pgs) (invocations pgs st)
  /\ downloads (walkTrace pgs st)
     = omap (fun x => firstMatch x.1 x.2) (zip pgs (drop c W))
  /\ reloads (walkTrace pgs st) = length pgs.
Proof.
  revert c st. induction pgs as [| pg pgs IH]; intros c st Hp Hlen Hpages.
  { cbn [length invocations foldl walkTrace zip zip_with]. rewrite Nat.add_0_r.
    split; [exact Hp |]. split; [now destruct (drop c W) | reflexivity]. }
  cbn [length] in Hlen.
  destruct (lookup_lt_is_Some' W c) as [pkg Hpkg]; [lia |].
  destruct (Hpages 0 pg pkg) as (Hin & re & Hre);
    [reflexivity | now rewrite Nat.add_0_r |].
  pose proof (run_here pg st W c pkg re Hp Hpkg Hin Hre) as Hrun.
  assert (storageOf (run pg st) = <[INDEX_KEY := toString (Z.of_nat c + 1)]> st
          /\ downloads (traceOf (run pg st)) = option_list (firstMatch pg pkg)
          /\ reloads (traceOf (run pg st)) = 1) as (Hst & Hd & Hr).
  { rewrite Hrun. unfold firstMatch. rewrite Hre.
    destruct (List.filter (isMatch re) (anchors pg)); repeat split. }
  destruct (IH (S c) (storageOf (run pg st))) as (IH1 & IH2 & IH3).
  - rewrite Hst. now apply persisted_advance.
  - lia.
  - intros i pg' pkg' Hpg' Hpkg'. apply (Hpages (S i)); [exact Hpg' |].
    now rewrite Nat.add_succ_r.
  - change (invocations (pg :: pgs) st) with (invocations pgs (storageOf (run pg st))).
    cbn [walkTrace length]. rewrite downloads_app, reloads_app, Hd, Hr, IH2, IH3.
    rewrite Nat.add_succ_r. split; [exact IH1 |]. split; [| reflexivity].
    rewrite (drop_S W pkg c Hpkg). cbn [zip zip_with omap list_omap fst snd].
    now destruct (firstMatch pg pkg).
Qed.

Lemma walk_downloads_first_matches_witness :
  persisted ["nano"; "nmap"] 0 (stored ["nano"; "nmap"] 0)
  /\ 0 + length [pgA; pgA] <= length ["nano"; "nmap"]
  /\ persisted ["nano"; "nmap"] (0 + length [pgA; pgA])
       (invocations [pgA; pgA] (stored ["nano"; "nmap"] 0))
  /\ downloads (walkTrace [pgA; pgA] (stored ["nano"; "nmap"] 0))
     = omap (fun x => firstMatch x.1 x.2) (zip [pgA; pgA] (drop 0 ["nano"; "nmap"]))
  /\ reloads (walkTrace [pgA; pgA] (stored ["nano"; "nmap"] 0)) = length [pgA; pgA].
Proof.
  split; [split; reflexivity |]. split; [cbn; lia |].
  apply (walk_downloads_first_matches [pgA; pgA] ["nano"; "nmap"] 0
           (stored ["nano"; "nmap"] 0)); [split; reflexivity | cbn; lia |].
  intros [| [| i]] pg pkg Hpg Hpkg; cbn in Hpg, Hpkg; try discriminate;
    injection Hpg as <-; injection Hpkg as <-;
    (split; [reflexivity | eexists; vm_compute; reflexivity]).
Defined.

(** X15.  What lines 34-35, 71 and 88 write is what lines 39-40 read
    back: for every list of names, whatever code units they hold (quotes,
    backslashes, control characters), [JSON.parse] of the stored text is
    the list, and for every integer that JavaScript holds exactly and
    prints in full (between [-2^53] and [2^53]) [parseInt] of its stored
    decimal text is the integer. *)
Theorem list_and_cursor_survive_storage W z st :
  (- 2 ^ 53 < z < 2 ^ 53)%Z ->
  (<[INDEX_KEY := toString z]> (<[PACKAGES_KEY := JSON_stringify W]> st) !! PACKAGES_KEY)
    ≫= JSON_parse = Some W
  /\ cursorOf (<[INDEX_KEY := toString z]> (<[PACKAGES_KEY := JSON_stringify W]> st)) = Int z.
Proof.
  intros _. split.
  - rewrite lookup_insert_ne by discriminate. rewrite lookup_insert_eq.
    cbn. apply JSON_parse_stringify.
  - unfold cursorOf. rewrite lookup_insert_eq. apply parseInt10_toString.
Qed.

Lemma list_and_cursor_survive_storage_witness :
  (- 2 ^ 53 < 7 < 2 ^ 53)%Z
  /\ (<[INDEX_KEY := toString 7]>
        (<[PACKAGES_KEY := JSON_stringify ["nano"; String dquote "a\b"]]>
           (∅ : gmap string string)) !! PACKAGES_KEY)
       ≫= JSON_parse = Some ["nano"; String dquote "a\b"]
  /\ cursorOf (<[INDEX_KEY := toString 7]>
                 (<[PACKAGES_KEY := JSON_stringify ["nano"; String dquote "a\b"]]> ∅))
     = Int 7.
Proof.
  split; [lia |].
  apply (list_and_cursor_survive_storage ["nano"; String dquote "a\b"] 7 ∅). lia.
Defined.

(** ** Splitting what was joined, trimming what was padded *)

Lemma split_plain sep p : occursIn sep p = false -> split sep p = [p].
Proof.
  induction p as [| c p IH]; [reflexivity |]. cbn [occursIn split].
  destruct (Ascii.eqb c sep); [discriminate |]. cbn [orb]. intros Hp.
  now rewrite (IH Hp).
Qed.

Lemma split_app_sep sep p rest :
  occursIn sep p = false ->
  split sep (p +:+ String sep rest) = p :: split sep rest.
Proof.
  induction p as [| c p IH].
  - intros _. change (EmptyString +:+ String sep rest) with (String sep rest).
    cbn [split]. now rewrite Ascii.eqb_refl.
  - cbn [occursIn]. destruct (Ascii.eqb c sep) eqn:Hc; [discriminate |]. cbn [orb].
    intros Hp. change (String c p +:+ String sep rest) with (String c (p +:+ String sep rest)).
    cbn [split]. now rewrite Hc, (IH Hp).
Qed.

Lemma split_join sep parts :
  parts <> [] ->
  Forall (fun t => occursIn sep t = false) parts ->
  split sep (join (String sep EmptyString) parts) = parts.
Proof.
  induction parts as [| p parts IH]; [congruence |]. intros _ Hparts.
  inversion Hparts as [| ? ? Hp Hrest]; subst.
  destruct parts as [| q parts]; [now apply split_plain |].
  change (join (String sep EmptyString) (p :: q :: parts))
    with (p +:+ String sep EmptyString +:+ join (String sep EmptyString) (q :: parts)).
  change (String sep EmptyString +:+ join (String sep EmptyString) (q :: parts))
    with (String sep (join (String sep EmptyString) (q :: parts))).
  rewrite split_app_sep by exact Hp. f_equal. now apply IH.
Qed.

Lemma occursIn_app c a b : occursIn c (a +:+ b) = occursIn c a || occursIn c b.
Proof.
  induction a as [| x a IH]; [reflexivity |].
  change (String x a +:+ b) with (String x (a +:+ b)). cbn [occursIn].
  now rewrite IH, orb_assoc.
Qed.

Lemma occursIn_join c sep parts :
  Ascii.eqb sep c = false ->
  Forall (fun t => occursIn c t = false) parts ->
  occursIn c (join (String sep EmptyString) parts) = false.
Proof.
  intros Hsep. induction parts as [| p parts IH]; [reflexivity |].
  intros Hparts. inversion Hparts as [| ? ? Hp Hrest]; subst.
  destruct parts as [| q parts]; [exact Hp |].
  change (join (String sep EmptyString) (p :: q :: parts))
    with (p +:+ String sep EmptyString +:+ join (String sep EmptyString) (q :: parts)).
  rewrite !occursIn_app, Hp, (IH Hrest). cbn [occursIn]. now rewrite Hsep.
Qed.

Lemma trimStart_allWhiteSpace l s : allWhiteSpace l = true -> trimStart (l +:+ s) = trimStart s.
Proof.
  induction l as [| c l IH]; [reflexivity |]. cbn [allWhiteSpace].
  intros [Hc Hl]%andb_prop.
  change (String c l +:+ s) with (String c (l +:+ s)). cbn [trimStart].
  now rewrite Hc, (IH Hl).
Qed.

Lemma trimStart_blank r : allWhiteSpace r = true -> trimStart r = EmptyString.
Proof.
  induction r as [| c r IH]; [reflexivity |]. cbn [allWhiteSpace trimStart].
  intros [Hc Hr]%andb_prop. now rewrite Hc, (IH Hr).
Qed.

Lemma trimEnd_blank r : allWhiteSpace r = true -> trimEnd r = EmptyString.
Proof.
  induction r as [| c r IH]; [reflexivity |]. cbn [allWhiteSpace trimEnd].
  intros [Hc Hr]%andb_prop. now rewrite (IH Hr), Hc.
Qed.

Lemma trimEnd_padded p r :
  endsWithWhiteSpace p = false -> allWhiteSpace r = true -> trimEnd (p +:+ r) = p.
Proof.
  intros Hp Hr. induction p as [| c p IH].
  - now apply trimEnd_blank.
  - change (String c p +:+ r) with (String c (p +:+ r)). cbn [trimEnd].
    destruct p as [| c' p'].
    + change (EmptyString +:+ r) with r. rewrite (trimEnd_blank r Hr).
      cbn [endsWithWhiteSpace] in Hp. now rewrite Hp.
    + cbn [endsWithWhiteSpace] in Hp. rewrite (IH Hp). cbn [truthy negb].
      now rewrite andb_false_r.
Qed.

Lemma trim_padded l p r :
  allWhiteSpace l = true -> allWhiteSpace r = true ->
  startsWithWhiteSpace p = false -> endsWithWhiteSpace p = false ->
  trim (l +:+ p +:+ r) = p.
Proof.
  intros Hl Hr Hstart Hend. unfold trim. rewrite (trimStart_allWhiteSpace l _ Hl).
  destruct p as [| c p].
  - change (EmptyString +:+ r) with r. now rewrite (trimStart_blank r Hr).
  - change (String c p +:+ r) with (String c (p +:+ r)). cbn [trimStart].
    cbn [startsWithWhiteSpace] in Hstart. rewrite Hstart.
    now apply (trimEnd_padded (String c p) r).
Qed.

Lemma allWhiteSpace_no_comma s : allWhiteSpace s = true -> occursIn "," s = false.
Proof.
  induction s as [| c s IH]; [reflexivity |]. cbn [allWhiteSpace occursIn].
  intros [Hc Hs]%andb_prop. rewrite (IH Hs), orb_false_r.
  destruct (Ascii.eqb_spec c ","); [subst c; discriminate | reflexivity].
Qed.

(** X16.  The names come out of the answer as they were typed.  When the
    answer is a list of pieces joined by commas, each piece a name with
    any white space before and after it, where a name holds no comma and
    neither starts nor ends with white space, then line 29 gives exactly
    the names, in order, the empty ones left out. *)
Theorem names_are_stored_as_typed (entries : list (string * string * string)) :
  Forall wellTyped entries ->
  splitPackages (join "," (map typed entries)) = List.filter truthy (map named entries).
Proof.
  intros Hentries. unfold splitPackages.
  destruct entries as [| e entries]; [reflexivity |].
  rewrite split_join.
  - f_equal. rewrite List.map_map. apply List.map_ext_in. intros x Hx.
    rewrite List.Forall_forall in Hentries.
    destruct (Hentries x Hx) as (Hl & Hr & _ & Hstart & Hend).
    now apply trim_padded.
  - discriminate.
  - apply List.Forall_forall. intros t Ht.
    apply List.in_map_iff in Ht as (x & <- & Hx).
    rewrite List.Forall_forall in Hentries.
    destruct (Hentries x Hx) as (Hl & Hr & Hname & _).
    unfold typed. unfold named in Hname. rewrite !occursIn_app, Hname.
    now rewrite (allWhiteSpace_no_comma _ Hl), (allWhiteSpace_no_comma _ Hr).
Qed.

Lemma names_are_stored_as_typed_witness :
  Forall wellTyped [(" ", "nano", ""); ("", "", "  "); ("", "vim", " ")]
  /\ splitPackages " nano,  ,vim " = ["nano"; "vim"].
Proof.
  assert (Forall wellTyped [(" ", "nano", ""); ("", "", "  "); ("", "vim", " ")]) as H
    by (repeat constructor).
  split; [exact H |].
  exact (names_are_stored_as_typed _ H).
Defined.

(** * More of the table script: rows of any shape *)

Import Table.

Lemma columns_In headers row k v :
  In (k, v) (columns headers row) -> In v (cellsOf row).
Proof.
  unfold columns, cellsOf. intros Hin.
  apply list_elem_of_In, list_elem_of_lookup in Hin as [i Hi].
  rewrite list_lookup_imap in Hi.
  destruct (drop 1 (map trim row) !! i) as [cell |] eqn:Hcell; [| discriminate].
  cbn in Hi. injection Hi as _ <-.
  apply list_elem_of_In. eapply list_elem_of_lookup_2. eassumption.
Qed.

Lemma showsValue_cells headers row :
  showsValue (columns headers row) = true -> existsb truthy (cellsOf row) = true.
Proof.
  intros (k & v & Hk & Hv)%showsValue_true. apply List.existsb_exists.
  exists v. split; [eapply columns_In, under_Some_In; eassumption | now destruct v].
Qed.

Lemma filter_filter_weaker {A} (p q : A -> bool) l :
  (forall x, p x = true -> q x = true) ->
  List.filter p (List.filter q l) = List.filter p l.
Proof.
  intros Hpq. induction l as [| a l IH]; [reflexivity |]. cbn [List.filter].
  destruct (q a) eqn:Hq; cbn [List.filter].
  - now rewrite IH.
  - destruct (p a) eqn:Hp; [| exact IH]. rewrite (Hpq a Hp) in Hq. discriminate.
Qed.

(** X17.  A body row whose cells after the first are all empty once
    trimmed never reaches the file, whatever the headers are: taking those
    rows out of the table leaves the CSV text as it is, and a table with
    no other rows (or no rows at all) gives the header line alone.  The
    first cell of a row is not looked at (lines 13-16). *)
Theorem blank_rows_are_left_out proto headers rows :
  csvText proto headers rows
  = csvText proto headers (List.filter (fun row => existsb truthy (cellsOf row)) rows)
  /\ (List.filter (fun row => existsb truthy (cellsOf row)) rows = [] ->
      csvText proto headers rows = join "," headers).
Proof.
  assert (csvText proto headers rows
          = csvText proto headers
              (List.filter (fun row => existsb truthy (cellsOf row)) rows)) as Hsame.
  { rewrite !csvText_by_columns. do 3 f_equal. symmetry.
    apply (filter_filter_weaker (fun row => showsValue (columns headers row))).
    intros row. apply showsValue_cells. }
  split; [exact Hsame |].
  intros Hnone. rewrite Hsame, Hnone. reflexivity.
Qed.

Lemma csvText_regular proto hs rows :
  regular hs rows ->
  csvText proto hs rows
  = join newline
      (join "," hs
       :: map (fun row => join "," (cellsOf row))
            (List.filter (fun row => existsb truthy (cellsOf row)) rows)).
Proof.
  intros [Hnd Hrows]. rewrite csvText_by_columns. do 2 f_equal.
  assert (forall row, In row rows ->
            columns hs row = zip hs (cellsOf row)
            /\ length hs = length (cellsOf row)) as Hcols.
  { intros row Hin. rewrite List.Forall_forall in Hrows. specialize (Hrows row Hin).
    split; [now apply columns_regular |]. unfold cellsOf. rewrite length_drop, length_map. lia. }
  transitivity
    (map (fun row => join "," (cellsOf row))
       (List.filter (fun row => showsValue (columns hs row)) rows)).
  - apply List.map_ext_in. intros row Hin. apply List.filter_In in Hin as [Hin _].
    destruct (Hcols row Hin) as [-> Hlen]. now rewrite printed_regular.
  - f_equal. apply List.filter_ext_in. intros row Hin.
    destruct (Hcols row Hin) as [-> Hlen]. now apply showsValue_regular.
Qed.

Lemma plainField_true s :
  plainField s = true -> occursIn "," s = false /\ occursIn lineFeed s = false.
Proof.
  unfold plainField. intros [H1 H2]%andb_prop.
  split; [now destruct (occursIn "," s) | now destruct (occursIn lineFeed s)].
Qed.

Lemma plain_fields_line cells :
  cells <> [] ->
  Forall (fun cell => plainField cell = true) cells ->
  occursIn lineFeed (join "," cells) = false
  /\ split "," (join "," cells) = cells.
Proof.
  intros Hne Hplain. split.
  - apply occursIn_join; [reflexivity |].
    eapply List.Forall_impl; [| exact Hplain]. intros cell Hc. now apply plainField_true.
  - apply split_join; [exact Hne |].
    eapply List.Forall_impl; [| exact Hplain]. intros cell Hc. now apply plainField_true.
Qed.

(** X18.  The CSV text of a regular table reads back as the table.  When
    there is at least one header and no header or cell holds a comma or a
    line feed, cutting the text at the line feeds and each line at the
    commas gives the headers and then, for each row that has a non-empty
    cell after the first, its trimmed cells after the first: every line
    has as many fields as there are headers.  The script quotes nothing,
    so the two conditions on the fields are needed (lines 19-22). *)
Theorem regular_csv_reads_back proto headerCells rows :
  readHeaders headerCells <> [] ->
  regular (readHeaders headerCells) rows ->
  Forall (fun h => plainField h = true) (readHeaders headerCells) ->
  Forall (fun row => Forall (fun cell => plainField cell = true) (cellsOf row)) rows ->
  map (split ",") (split lineFeed (csvText proto (readHeaders headerCells) rows))
  = readHeaders headerCells
    :: map cellsOf (List.filter (fun row => existsb truthy (cellsOf row)) rows).
Proof.
  set (hs := readHeaders headerCells).
  intros Hne Hreg Hhs Hcells. rewrite (csvText_regular proto hs rows Hreg).
  set (kept := List.filter (fun row => existsb truthy (cellsOf row)) rows).
  assert (forall row, In row kept ->
            occursIn lineFeed (join "," (cellsOf row)) = false
            /\ split "," (join "," (cellsOf row)) = cellsOf row) as Hrow.
  { intros row [Hin _]%List.filter_In. apply plain_fields_line.
    - destruct Hreg as [_ Hlen]. rewrite List.Forall_forall in Hlen.
      specialize (Hlen row Hin). intros Hnil.
      assert (length (cellsOf row) = length hs) as Hl
        by (unfold cellsOf; rewrite length_drop, length_map; lia).
      rewrite Hnil in Hl. destruct hs; [congruence | discriminate].
    - rewrite List.Forall_forall in Hcells. now apply Hcells. }
  destruct (plain_fields_line hs Hne Hhs) as [Hline Hsplit].
  unfold newline. fold lineFeed. rewrite split_join.
  - cbn [map]. rewrite Hsplit. f_equal. rewrite List.map_map.
    apply List.map_ext_in. intros row Hin. now apply Hrow.
  - discriminate.
  - constructor; [exact Hline |]. apply List.Forall_forall. intros line Hin.
    apply List.in_map_iff in Hin as (row & <- & Hin). now apply Hrow.
Qed.

Lemma regular_csv_reads_back_witness :
  readHeaders [""; " Name "; "Version"] <> []
  /\ regular (readHeaders [""; " Name "; "Version"])
       [["1"; "nano"; "6.2"]; ["2"; " "; ""]; ["3"; "vim"; ""]]
  /\ map (split ",")
       (split lineFeed
          (csvText (fun _ => None) (readHeaders [""; " Name "; "Version"])
             [["1"; "nano"; "6.2"]; ["2"; " "; ""]; ["3"; "vim"; ""]]))
     = [["Name"; "Version"]; ["nano"; "6.2"]; ["vim"; ""]].
Proof.
  assert (regular (readHeaders [""; " Name "; "Version"])
            [["1"; "nano"; "6.2"]; ["2"; " "; ""]; ["3"; "vim"; ""]]) as Hreg.
  { split; [| repeat constructor].
    change (NoDup ["Name"; "Version"]).
    repeat constructor; rewrite ?list_elem_of_In; cbn; intuition discriminate. }
  split; [discriminate |]. split; [exact Hreg |].
  apply (regular_csv_reads_back (fun _ => None) [""; " Name "; "Version"]
           [["1"; "nano"; "6.2"]; ["2"; " "; ""]; ["3"; "vim"; ""]]);
    [discriminate | exact Hreg | repeat constructor | repeat constructor].
Defined.

(** *** Rows with fewer or more cells than there are headers *)

Lemma under_snoc cols kv k :
  under (cols ++ [kv])%list k = if String.eqb kv.1 k then Some kv.2 else under cols k.
Proof.
  unfold under. rewrite rev_app_distr. cbn [rev app List.find].
  now destruct (String.eqb kv.1 k).
Qed.

Lemma keyed_snoc (headers cells : list string) c :
  keyed headers (cells ++ [c])%list
  = (keyed headers cells ++ [(headerKey headers (length cells), c)])%list.
Proof.
  unfold keyed. rewrite imap_app. cbn [imap]. now rewrite Nat.add_0_r.
Qed.

Section Ragged.

Variable headers : list string.
Hypothesis headers_differ : NoDup headers.
Hypothesis no_undefined : ~ In "undefined" headers.

Lemma headerKey_header i j h :
  headers !! i = Some h -> headerKey headers j = h -> j = i.
Proof.
  intros Hi Hj. unfold headerKey in Hj.
  destruct (headers !! j) as [h' |] eqn:Hj'; cbn in Hj.
  - subst h'. eapply NoDup_lookup; eassumption.
  - subst h. exfalso. apply no_undefined, list_elem_of_In.
    eapply list_elem_of_lookup_2. eassumption.
Qed.

Lemma headerKey_undefined j :
  String.eqb (headerKey headers j) "undefined" = (length headers <=? j)%nat.
Proof.
  unfold headerKey. destruct (headers !! j) as [h |] eqn:Hj; cbn.
  - pose proof (lookup_lt_Some _ _ _ Hj) as Hlt.
    destruct (Nat.leb_spec (length headers) j); [lia |].
    apply String.eqb_neq. intros ->. apply no_undefined, list_elem_of_In.
    eapply list_elem_of_lookup_2. eassumption.
  - apply lookup_ge_None in Hj. destruct (Nat.leb_spec (length headers) j); [reflexivity | lia].
Qed.

Lemma under_header cells i h :
  headers !! i = Some h -> under (keyed headers cells) h = cells !! i.
Proof.
  intros Hi. induction cells as [| c cells IH] using rev_ind; [reflexivity |].
  rewrite keyed_snoc, under_snoc. cbn [fst snd].
  destruct (String.eqb_spec (headerKey headers (length cells)) h) as [Hk | Hk].
  - apply (headerKey_header i) in Hk; [| exact Hi]. subst i.
    now rewrite lookup_app_r, Nat.sub_diag by lia.
  - rewrite IH. destruct (Nat.eq_dec i (length cells)) as [-> | Hne].
    + exfalso. apply Hk. unfold headerKey. now rewrite Hi.
    + destruct (Nat.lt_ge_cases i (length cells)) as [Hlt | Hge].
      * now rewrite lookup_app_l.
      * rewrite !lookup_ge_None_2; [reflexivity | rewrite length_app; cbn; lia | lia].
Qed.

Lemma under_undefined cells :
  under (keyed headers cells) "undefined" = last (drop (length headers) cells).
Proof.
  induction cells as [| c cells IH] using rev_ind; [now rewrite drop_nil |].
  rewrite keyed_snoc, under_snoc. cbn [fst snd].
  rewrite headerKey_undefined, drop_app.
  destruct (Nat.leb_spec (length headers) (length cells)) as [Hle | Hgt].
  - replace (length headers - length cells) with 0 by lia. cbn [drop].
    now rewrite last_snoc.
  - rewrite IH. rewrite (drop_ge cells) by lia. cbn [app].
    rewrite drop_ge by (cbn; lia). reflexivity.
Qed.

Lemma printed_keyed proto cells :
  (forall h, In h headers -> proto h = None) ->
  map (printed proto (keyed headers cells)) headers
  = take (length headers) (cells ++ replicate (length headers) EmptyString)%list.
Proof.
  intros Hproto. apply list_eq. intros i. rewrite list_lookup_fmap.
  destruct (headers !! i) as [h |] eqn:Hi; cbn.
  - pose proof (lookup_lt_Some _ _ _ Hi) as Hlt.
    rewrite lookup_take_lt by exact Hlt.
    unfold printed. rewrite (under_header cells i h Hi).
    destruct (cells !! i) as [c |] eqn:Hc.
    + now rewrite lookup_app_l_Some with (x := c).
    + apply lookup_ge_None in Hc. rewrite lookup_app_r by exact Hc.
      rewrite lookup_replicate_2 by lia.
      rewrite Hproto; [reflexivity |].
      apply list_elem_of_In. eapply list_elem_of_lookup_2. eassumption.
  - apply lookup_ge_None in Hi. symmetry. apply lookup_ge_None.
    rewrite length_take. lia.
Qed.

Lemma showsValue_keyed cells :
  showsValue (keyed headers cells)
  = existsb truthy (take (length headers) cells)
    || from_option truthy false (last (drop (length headers) cells)).
Proof.
  apply eq_true_iff_eq. rewrite orb_true_iff, showsValue_true, List.existsb_exists. split.
  - intros (k & v & Hk & Hv).
    pose proof (under_Some_In _ _ _ Hk) as Hin.
    apply list_elem_of_In, list_elem_of_lookup in Hin as [i Hi].
    unfold keyed in Hi. rewrite list_lookup_imap in Hi.
    destruct (cells !! i) as [c |] eqn:Hc; [| discriminate]. cbn in Hi.
    injection Hi as Hkey _. unfold headerKey in Hkey.
    assert (truthy v = true) as Htruthy by now destruct v.
    destruct (headers !! i) as [h |] eqn:Hh; cbn in Hkey; subst k.
    + left. rewrite (under_header cells i h Hh) in Hk. exists v. split; [| exact Htruthy].
      apply list_elem_of_In. apply (list_elem_of_lookup_2 _ i).
      rewrite lookup_take_lt by (eapply lookup_lt_Some; eassumption). exact Hk.
    + right. rewrite under_undefined in Hk. now rewrite Hk.
  - intros [(v & Hin & Hv) | Hlast].
    + apply list_elem_of_In, list_elem_of_lookup in Hin as [i Hi].
      apply lookup_take_Some in Hi as [Hi Hlt].
      destruct (lookup_lt_is_Some_2 headers i Hlt) as [h Hh].
      exists h, v. split; [now rewrite (under_header cells i h Hh) |].
      intros ->. discriminate.
    + destruct (last (drop (length headers) cells)) as [v |] eqn:Hv; [| discriminate].
      exists "undefined", v. split; [now rewrite under_undefined |].
      intros ->. discriminate.
Qed.

End Ragged.

(** X19.  Headers and cells are paired by position, so a row with fewer
    or more cells than there are headers is padded or cut.  When no header
    repeats, none is the text [undefined] and none names an inherited
    property, the line of a row is its first [n] cells after the first
    column ([n] the number of headers), with empty fields for the cells
    it lacks.  The cells past the last header are never printed: they all
    land under the key [undefined], where the last one stays, and that one
    alone of them can keep a row that is empty otherwise (lines 13-16,
    21). *)
Theorem ragged_rows_are_cut_or_padded proto headers rows :
  NoDup headers ->
  ~ In "undefined" headers ->
  (forall h, In h headers -> proto h = None) ->
  csvText proto headers rows
  = join newline
      (join "," headers
       :: map (fun row =>
                 join ","
                   (take (length headers)
                      (cellsOf row ++ replicate (length headers) EmptyString)))
            (List.filter
               (fun row =>
                  existsb truthy (take (length headers) (cellsOf row))
                  || from_option truthy false (last (drop (length headers) (cellsOf row))))
               rows)).
Proof.
  intros Hnd Hund Hproto. rewrite csvText_by_columns. do 2 f_equal.
  erewrite List.filter_ext;
    [| intros row; apply (showsValue_keyed headers Hnd Hund (cellsOf row))].
  apply List.map_ext. intros row. f_equal.
  now apply (printed_keyed headers Hnd Hund).
Qed.

Lemma ragged_rows_are_cut_or_padded_witness :
  NoDup ["Name"; "Version"]
  /\ ~ In "undefined" ["Name"; "Version"]
  /\ csvText (fun _ => None) ["Name"; "Version"]
       [["1"; "nano"]; ["2"; "vim"; "9.0"; "extra"]; ["3"; ""; ""; "kept"];
        ["4"; ""; ""; "x"; ""]]
     = "Name,Version" +:+ newline +:+ "nano," +:+ newline +:+ "vim,9.0" +:+ newline +:+ ",".
Proof.
  assert (NoDup ["Name"; "Version"]) as Hnd
    by (repeat constructor; rewrite ?list_elem_of_In; cbn; intuition discriminate).
  assert (~ In "undefined" ["Name"; "Version"]) as Hund by (cbn; intuition discriminate).
  split; [exact Hnd |]. split; [exact Hund |].
  rewrite (ragged_rows_are_cut_or_padded (fun _ => None) ["Name"; "Version"] _ Hnd Hund);
    reflexivity.
Defined.

(** * The table script, against the words of the specification *)

(** C9, as stated, fails: "for every input grid ... drops the first
    column ... one line per remaining row" does not hold of every grid.
    Lines 8-10 take the empty cells out of the header row, not its first
    cell, while line 13 takes the first cell out of each body row: with a
    header row whose first cell is not empty the header line keeps that
    cell and the cells of the rows stand one column to the left of their
    headers.  And nothing is quoted (lines 19-22): a cell that holds a
    line feed gives two lines for one row. *)
Lemma first_header_cell_is_not_dropped :
  script (fun _ => None)
    (Document (Some ["Id"; "Name"; "Version"]) (Some [["1"; "nano"; "6.2"]]))
  = [ClickDownload "data.csv" "text/csv" ("Id,Name,Version" +:+ newline +:+ "nano,6.2,");
     RevokeObjectURL]
  /\ script (fun _ => None)
       (Document (Some [""; "Name"; "Notes"])
          (Some [["1"; "nano"; "small" +:+ newline +:+ "editor"]]))
     = [ClickDownload "data.csv" "text/csv"
          ("Name,Notes" +:+ newline +:+ "nano,small" +:+ newline +:+ "editor");
        RevokeObjectURL]
  /\ length (split lineFeed ("Name,Notes" +:+ newline +:+ "nano,small" +:+ newline +:+ "editor"))
     = 3.
Proof. repeat split. Qed.

Lemma readHeaders_after_empty_cell headerCells :
  head (map trim headerCells) = Some EmptyString ->
  Forall (fun h => truthy h = true) (drop 1 (map trim headerCells)) ->
  readHeaders headerCells = drop 1 (map trim headerCells)
  /\ length headerCells = S (length (drop 1 (map trim headerCells))).
Proof.
  unfold readHeaders. intros Hhead Hrest.
  rewrite <- (length_map trim headerCells).
  destruct (map trim headerCells) as [| first rest]; [discriminate |].
  cbn [head] in Hhead. injection Hhead as ->. cbn [drop] in *.
  split; [| reflexivity]. cbn [List.filter truthy].
  apply List.forallb_filter_id, List.forallb_forall.
  rewrite List.Forall_forall in Hrest. exact Hrest.
Qed.

(** C9.  For every grid whose header row starts with an empty cell and
    has no other empty cell and no two equal cells, and whose body rows
    have as many cells as the header row (cells compared and printed
    trimmed), the script drops the first column of the header row and of
    every body row, removes the rows that have no non-empty cell left,
    and offers one download, named [data.csv], of type [text/csv]: the
    header line and then the remaining rows, each the cells of the row
    joined by commas, separated by line feeds.  The object built for a
    row maps each header to the cell of the row in that column.  When no
    header and no cell holds a line feed, the lines of the text are the
    header line and one line per remaining row. *)
Theorem table_as_csv_download proto headerCells rows :
  let headers := drop 1 (map trim headerCells) in
  let cells row := drop 1 (map trim row) in
  let kept := List.filter (fun row => existsb truthy (cells row)) rows in
  let text :=
    join newline (join "," headers :: map (fun row => join "," (cells row)) kept) in
  head (map trim headerCells) = Some EmptyString ->
  Forall (fun h => truthy h = true) headers ->
  NoDup headers ->
  Forall (fun row => length row = length headerCells) rows ->
  script proto (Document (Some headerCells) (Some rows))
  = [ClickDownload "data.csv" "text/csv" text; RevokeObjectURL]
  /\ (forall row j h,
        In row rows -> headers !! j = Some h ->
        rowObject (readHeaders headerCells) row !! h = cells row !! j)
  /\ (Forall (fun h => occursIn lineFeed h = false) headers ->
      Forall (fun row => Forall (fun cell => occursIn lineFeed cell = false) (cells row)) rows ->
      split lineFeed text
      = join "," headers :: map (fun row => join "," (cells row)) kept).
Proof.
  intros headers cells kept text Hfirst Hfull Hnd Hrows.
  destruct (readHeaders_after_empty_cell headerCells Hfirst Hfull) as [Hread Hlen].
  fold headers in Hread, Hlen.
  assert (regular headers rows) as Hreg.
  { split; [exact Hnd |]. eapply List.Forall_impl; [| exact Hrows].
    intros row Hrow. cbn beta in Hrow. now rewrite Hrow. }
  split; [| split].
  - unfold script. cbn [dataTable headerTable]. rewrite Hread.
    now rewrite (csvText_regular proto headers rows Hreg).
  - intros row j h Hin Hh. rewrite Hread. unfold rowObject.
    fold (columns headers row). rewrite fromEntries_lookup.
    rewrite List.Forall_forall in Hrows. specialize (Hrows row Hin).
    rewrite columns_regular by (rewrite Hrows; exact Hlen).
    assert (length headers = length (cells row)) as Hcells
      by (subst cells; cbn beta; rewrite length_drop, length_map; lia).
    destruct (lookup_lt_is_Some_2 (cells row) j) as [c Hc];
      [rewrite <- Hcells; eapply lookup_lt_Some; eassumption |].
    rewrite Hc. now apply (under_zip headers (cells row) j h c).
  - intros Hheaders Hfields. subst text. unfold newline. fold lineFeed.
    apply split_join; [discriminate |].
    constructor; [now apply occursIn_join |].
    apply List.Forall_forall. intros line Hline.
    apply List.in_map_iff in Hline as (row & <- & [Hin _]%List.filter_In).
    apply occursIn_join; [reflexivity |].
    rewrite List.Forall_forall in Hfields. now apply Hfields.
Qed.

Lemma table_as_csv_download_witness :
  head (map trim [""; " Name "; "Version"]) = Some EmptyString
  /\ NoDup (drop 1 (map trim [""; " Name "; "Version"]))
  /\ script (fun _ => None)
       (Document (Some [""; " Name "; "Version"])
          (Some [["1"; "nano"; "6.2"]; ["2"; " "; ""]; ["3"; "vim"; ""]]))
     = [ClickDownload "data.csv" "text/csv"
          ("Name,Version" +:+ newline +:+ "nano,6.2" +:+ newline +:+ "vim,");
        RevokeObjectURL]
  /\ (forall row j h,
        In row [["1"; "nano"; "6.2"]; ["2"; " "; ""]; ["3"; "vim"; ""]] ->
        ["Name"; "Version"] !! j = Some h ->
        rowObject (readHeaders [""; " Name "; "Version"]) row !! h
        = drop 1 (map trim row) !! j)
  /\ (Forall (fun h => occursIn lineFeed h = false) ["Name"; "Version"] ->
      Forall (fun row => Forall (fun cell => occursIn lineFeed cell = false)
                           (drop 1 (map trim row)))
        [["1"; "nano"; "6.2"]; ["2"; " "; ""]; ["3"; "vim"; ""]] ->
      split lineFeed ("Name,Version" +:+ newline +:+ "nano,6.2" +:+ newline +:+ "vim,")
      = ["Name,Version"; "nano,6.2"; "vim,"]).
Proof.
  assert (NoDup (drop 1 (map trim [""; " Name "; "Version"]))) as Hnd.
  { change (NoDup ["Name"; "Version"]).
    repeat constructor; rewrite ?list_elem_of_In; cbn; intuition discriminate. }
  split; [reflexivity |]. split; [exact Hnd |].
  apply (table_as_csv_download (fun _ => None) [""; " Name "; "Version"]
           [["1"; "nano"; "6.2"]; ["2"; " "; ""]; ["3"; "vim"; ""]]);
    [reflexivity | repeat constructor | exact Hnd | repeat constructor].
Defined.
